(** * Client-side remote-object layer: browser context and stream reader

    A shallow embedding of [BrowserContext] (client/browserContext.ts) and of
    [StreamImpl] (client/stream.ts).  Every method becomes a computation over
    an explicit world: the fields of the object, the registries of the objects
    it refers to, and a trace of what the method did that is visible from the
    outside (local event emissions, route-handler consultations and
    invocations, callback invocations, messages put on the channel).

    An awaited channel call takes the settled outcome of the remote side as
    an argument (the [reply]), so a method can be run against a succeeding and
    against a failing driver alike. *)

From Stdlib Require Import ZArith String Ascii List Lia.
From stdpp Require Import base option list gmap strings.

Import ListNotations.
Local Open Scope string_scope.
Local Open Scope list_scope.

(** ** Values shared by all proxies *)

Abbreviation guid := string (only parsing).

Inductive ErrorKind := PlainError | TimeoutError.

Record Error := mkError { err_kind : ErrorKind; err_message : string }.

(** [new Error(message)] *)
Definition new_Error (message : string) : Error := mkError PlainError message.

(** [new TimeoutError(message)] *)
Definition new_TimeoutError (message : string) : Error := mkError TimeoutError message.

(** The settled state of an awaited call: a value or a thrown error. *)
Inductive Result (A : Type) : Type :=
| Ok (a : A)
| Throw (e : Error).
Arguments Ok {A} a.
Arguments Throw {A} e.

(** [promise.catch(handler)]: the promise it returns is fulfilled either
    way, with the handler's value when the original one was rejected. *)
Definition promise_catch {A} (settled : Result A) (handler : Error -> A) : Result A :=
  match settled with
  | Ok a => Ok a
  | Throw e => Ok (handler e)
  end.

(** A promise that nobody awaits: if it is rejected, the rejection is
    unhandled. *)
Definition unhandled {A} (settled : Result A) : list Error :=
  match settled with
  | Ok _ => []
  | Throw e => [e]
  end.

(** Arguments and results of exposed bindings. *)
Inductive Value :=
| VUndefined
| VBool (b : bool)
| VNum (n : Z)
| VStr (s : string).

(** [network.Request], as far as the context touches it: the url it answers
    from [url()], and the two fields the failure and finish handlers write. *)
Record Timing := mkTiming { responseEnd : Z }.

Record Request := mkRequest {
  req_guid : guid;
  req_url : string;
  _failureText : option string;
  _timing : option Timing
}.

Record Response := mkResponse { resp_guid : guid; resp_status : Z }.

Record Route := mkRoute { route_guid : guid }.

(** An event emitter is identified by the proxy it belongs to. *)
Inductive Scope :=
| ContextScope (g : guid)
| PageScope (g : guid).

Inductive Payload :=
| PContext (g : guid)
| PPage (g : guid)
| PRequest (r : Request)
| PResponse (r : Response).

Definition Scope_eqb (a b : Scope) : bool :=
  match a, b with
  | ContextScope x, ContextScope y => String.eqb x y
  | PageScope x, PageScope y => String.eqb x y
  | _, _ => false
  end.

(** ** Waiter *)

Module Waiter.

(** Modelled from the spec: client/waiter.ts is not among the sources; the
    waiter below follows the description of the race between a target event,
    an early-rejection event and a timeout.

    Something that can happen while a wait is pending: an emitter fires an
    event, or the clock reaches [ms] milliseconds after the wait began. *)
Inductive Occurrence :=
| Fired (emitter : Scope) (event : string) (payload : Payload)
| Elapsed (ms : Z).

Inductive Branch :=
| ResolveOn (emitter : Scope) (event : string) (predicate : option (Payload -> bool))
| RejectOnEvent (emitter : Scope) (event : string) (error : Error)
| RejectOnTimeout (duration : Z) (message : string).

Inductive Outcome :=
| Pending
| Resolved (value : Payload)
| Rejected (error : Error).

(** Modelled from the spec: client/waiter.ts is not among the sources.  A
    waiter is the set of its active branches (event subscriptions and
    timers) and the one slot they settle; the branches are kept in the
    order they were registered in. *)
Record t := mk { branches : list Branch; outcome : Outcome }.

(** Modelled from the spec: [Waiter.createForEvent] of client/waiter.ts
    makes a pending wait with no branch yet. *)
Definition createForEvent (owner : Scope) (event : string) : t :=
  mk [] Pending.

(** Modelled from the spec: [rejectOnTimeout(duration, message)] of
    client/waiter.ts "starts a timer that rejects the wait if it fires
    first"; the rejection is a TimeoutError carrying the given message. *)
Definition rejectOnTimeout (duration : Z) (message : string) (w : t) : t :=
  mk (branches w ++ [RejectOnTimeout duration message]) (outcome w).

(** Modelled from the spec: [rejectOnEvent(emitter, eventName, error)] of
    client/waiter.ts "rejects the wait if that event fires first". *)
Definition rejectOnEvent (emitter : Scope) (event : string) (error : Error) (w : t) : t :=
  mk (branches w ++ [RejectOnEvent emitter event error]) (outcome w).

(** Modelled from the spec: [waitForEvent(emitter, eventName, predicate?)]
    of client/waiter.ts "registers a subscription that resolves the wait
    when eventName fires and, if a predicate is supplied, the predicate
    accepts the payload". *)
Definition waitForEvent (emitter : Scope) (event : string)
    (predicate : option (Payload -> bool)) (w : t) : t :=
  mk (branches w ++ [ResolveOn emitter event predicate]) (outcome w).

Definition accepts (predicate : option (Payload -> bool)) (p : Payload) : bool :=
  match predicate with
  | None => true
  | Some f => f p
  end.

(** Modelled from the spec: what one branch of client/waiter.ts does with
    one occurrence.  "Non-matching occurrences are ignored, the wait stays
    pending." *)
Definition fires (b : Branch) (o : Occurrence) : option Outcome :=
  match b, o with
  | ResolveOn em ev predicate, Fired em' ev' p =>
      if Scope_eqb em em' && String.eqb ev ev' && accepts predicate p
      then Some (Resolved p) else None
  | RejectOnEvent em ev error, Fired em' ev' _ =>
      if Scope_eqb em em' && String.eqb ev ev' then Some (Rejected error) else None
  | RejectOnTimeout duration message, Elapsed ms =>
      if (duration <=? ms)%Z then Some (Rejected (new_TimeoutError message)) else None
  | _, _ => None
  end.

Fixpoint first_fired (bs : list Branch) (o : Occurrence) : option Outcome :=
  match bs with
  | [] => None
  | b :: rest =>
      match fires b o with
      | Some r => Some r
      | None => first_fired rest o
      end
  end.

(** Modelled from the spec: the race of client/waiter.ts.  "Exactly one
    branch resolves the overall wait; on resolution every other registered
    subscription and timer is unregistered": a settled waiter has no branch
    left and no later occurrence changes it. *)
Definition step (o : Occurrence) (w : t) : t :=
  match outcome w with
  | Pending =>
      match first_fired (branches w) o with
      | Some r => mk [] r
      | None => w
      end
  | _ => w
  end.

Definition run (w : t) (os : list Occurrence) : t :=
  fold_left (fun acc o => step o acc) os w.

End Waiter.

(** ** BrowserContext *)

(** [URLMatch] of client/types.ts: a glob, a regular expression or a predicate
    on the url. *)
Inductive URLMatch :=
| GlobMatch (glob : string)
| RegExpMatch (source : string)
| PredicateMatch (f : string -> bool).

(** A route callback is a JavaScript function; it is known by its identity. *)
Abbreviation RouteHandlerCallback := nat (only parsing).

(** The interface of [network.RouteHandler] that the context uses.  The class
    is declared in client/network.ts, which is not among the sources; the
    context constructs handlers, asks them whether they match a url and tells
    them to handle a route.  [handle] gives the handler object as the call
    leaves it. *)
Class RouteHandlerAPI (RH : Type) := {
  new_RouteHandler : option string -> URLMatch -> RouteHandlerCallback -> option Z -> RH;
  matches : RH -> string -> bool;
  handle : RH -> Route -> Request -> RH
}.

(** [structs.BindingSource] and the callbacks kept in [_bindings]. *)
Record BindingSource := mkBindingSource { source_page : guid; source_frame : guid }.

Abbreviation Binding := (BindingSource -> list Value -> Value) (only parsing).

(** [BindingCall] of client/page.ts: the name it was made under (its
    initializer's [name]) and its arguments. *)
Record BindingCall := mkBindingCall {
  call_guid : guid;
  call_name : string;
  call_args : list Value
}.

(** The names in client/events.ts that the context uses. *)
Record EventNames := mkEventNames {
  BrowserContext_Close : string;
  BrowserContext_Request : string;
  BrowserContext_Response : string;
  BrowserContext_RequestFailed : string;
  BrowserContext_RequestFinished : string;
  Page_Request : string;
  Page_Response : string;
  Page_RequestFailed : string;
  Page_RequestFinished : string
}.

(** The second argument of [waitForEvent]: a predicate, or an options object
    with an optional predicate and an optional timeout. *)
Inductive WaitForEventOptions :=
| AsPredicate (f : Payload -> bool)
| AsOptions (predicate : option (Payload -> bool)) (timeout : option Z).

(** Messages the context puts on its channel. *)
Inductive Message :=
| ExposeBinding (name : string) (needsHandle : option bool)
| SetNetworkInterceptionEnabled (enabled : bool).

(** What the context needs from the rest of the client, which is not among
    the sources: the event names of client/events.ts, and what
    [_wrapApiCall] of client/channelOwner.ts makes of an error thrown by the
    body it runs, before it rethrows it. *)
Class ClientEnv := {
  Events : EventNames;
  apiError : Error -> Error
}.

(** The double quote character, for messages that quote an event name. *)
Definition dquote : string := String (ascii_of_nat 34) EmptyString.

Module BrowserContext.
Section WithCollaborators.

Context {RH : Type} {handlers : RouteHandlerAPI RH} {env : ClientEnv}.

(** What a method leaves behind for an observer. *)
Inductive Action :=
| Emitted (scope : Scope) (event : string) (payload : Payload)
| Matched (h : RH) (url : string) (answer : bool)
| Handled (h : RH) (route : Route) (request : Request)
| Continued (route : Route)
| Called (call : BindingCall) (func : BindingSource -> list Value -> Value)
| Sent (m : Message).

(** The context [this], the [_contexts] sets of the browsers and browser
    types it may refer to (by guid), the waits in flight on its emitters,
    the trace, and the rejections of promises nobody awaited.
    [_timeoutSettings] stands for the [TimeoutSettings]
    object of utils/timeoutSettings.ts by its one method the context calls,
    [timeout(options)], which reads the [timeout] field of its argument.
    [_closedPromise] is [None] while the promise made in the constructor is
    pending and holds the value it was resolved with afterwards. *)
Record State := mkState {
  this : guid;
  _routes : list RH;
  _browser : option guid;
  _browserType : option guid;
  _bindings : gmap string (BindingSource -> list Value -> Value);
  _timeoutSettings : option Z -> Z;
  _closedPromise : option Payload;
  _options_baseURL : option string;
  _closed : bool;
  Browser__contexts : gmap string (gset string);
  BrowserType__contexts : gmap string (gset string);
  waiters : list Waiter.t;
  trace : list Action;
  unhandledRejections : list Error
}.

Definition set_routes (rs : list RH) (s : State) : State :=
  mkState (this s) rs (_browser s) (_browserType s) (_bindings s) (_timeoutSettings s)
    (_closedPromise s) (_options_baseURL s) (_closed s) (Browser__contexts s)
    (BrowserType__contexts s) (waiters s) (trace s) (unhandledRejections s).


Definition set_bindings (m : gmap string (BindingSource -> list Value -> Value))
    (s : State) : State :=
  mkState (this s) (_routes s) (_browser s) (_browserType s) m (_timeoutSettings s)
    (_closedPromise s) (_options_baseURL s) (_closed s) (Browser__contexts s)
    (BrowserType__contexts s) (waiters s) (trace s) (unhandledRejections s).

Definition set_closedPromise (p : option Payload) (s : State) : State :=
  mkState (this s) (_routes s) (_browser s) (_browserType s) (_bindings s)
    (_timeoutSettings s) p (_options_baseURL s) (_closed s) (Browser__contexts s)
    (BrowserType__contexts s) (waiters s) (trace s) (unhandledRejections s).

Definition set_closed (b : bool) (s : State) : State :=
  mkState (this s) (_routes s) (_browser s) (_browserType s) (_bindings s)
    (_timeoutSettings s) (_closedPromise s) (_options_baseURL s) b (Browser__contexts s)
    (BrowserType__contexts s) (waiters s) (trace s) (unhandledRejections s).

Definition set_Browser__contexts (m : gmap string (gset string)) (s : State) : State :=
  mkState (this s) (_routes s) (_browser s) (_browserType s) (_bindings s)
    (_timeoutSettings s) (_closedPromise s) (_options_baseURL s) (_closed s) m
    (BrowserType__contexts s) (waiters s) (trace s) (unhandledRejections s).

Definition set_BrowserType__contexts (m : gmap string (gset string)) (s : State) : State :=
  mkState (this s) (_routes s) (_browser s) (_browserType s) (_bindings s)
    (_timeoutSettings s) (_closedPromise s) (_options_baseURL s) (_closed s)
    (Browser__contexts s) m (waiters s) (trace s) (unhandledRejections s).

Definition set_waiters (ws : list Waiter.t) (s : State) : State :=
  mkState (this s) (_routes s) (_browser s) (_browserType s) (_bindings s)
    (_timeoutSettings s) (_closedPromise s) (_options_baseURL s) (_closed s)
    (Browser__contexts s) (BrowserType__contexts s) ws (trace s) (unhandledRejections s).

Definition set_trace (t : list Action) (s : State) : State :=
  mkState (this s) (_routes s) (_browser s) (_browserType s) (_bindings s)
    (_timeoutSettings s) (_closedPromise s) (_options_baseURL s) (_closed s)
    (Browser__contexts s) (BrowserType__contexts s) (waiters s) t (unhandledRejections s).

Definition set_unhandledRejections (es : list Error) (s : State) : State :=
  mkState (this s) (_routes s) (_browser s) (_browserType s) (_bindings s)
    (_timeoutSettings s) (_closedPromise s) (_options_baseURL s) (_closed s)
    (Browser__contexts s) (BrowserType__contexts s) (waiters s) (trace s) es.

(** *** Computations: state that survives a throw *)

Definition M (A : Type) : Type := State -> Result A * State.

Definition ret {A} (a : A) : M A := fun s => (Ok a, s).

Definition bind {A B} (m : M A) (k : A -> M B) : M B :=
  fun s =>
    match m s with
    | (Ok a, s') => k a s'
    | (Throw e, s') => (Throw e, s')
    end.

Notation "'await' x <- m ; k" := (bind m (fun x => k))
  (at level 10, x name, m at level 100, k at level 200).
Notation "'run' m ; k" := (bind m (fun _ => k))
  (at level 10, m at level 100, k at level 200).

Definition modify (f : State -> State) : M unit := fun s => (Ok tt, f s).

Definition get {A} (f : State -> A) : M A := fun s => (Ok (f s), s).

Definition log (a : Action) : M unit := modify (fun s => set_trace (trace s ++ [a]) s).

Definition when (b : bool) (m : M unit) : M unit := if b then m else ret tt.

(** [await channel.method(params)]: the message goes out and the call
    settles as the remote side replied. *)
Definition channel_call (m : Message) (reply : Result unit) : M unit :=
  run log (Sent m); (fun s => (reply, s)).

(** A promise is left on its own: the caller goes on, and a rejection
    would be unhandled. *)
Definition detach {A} (settled : Result A) : M unit :=
  modify (fun s => set_unhandledRejections (unhandledRejections s ++ unhandled settled) s).

(** Modelled from the spec: [_wrapApiCall] of client/channelOwner.ts is not
    among the sources.  It runs the body on the channel and hands on its
    result; a failure of the body comes out as the user-visible error
    [apiError] makes of it. *)
Definition _wrapApiCall {A} (body : M A) : M A :=
  fun s =>
    match body s with
    | (Ok a, s') => (Ok a, s')
    | (Throw e, s') => (Throw (apiError e), s')
    end.

(** *** The emitter *)

(** [emitter.emit(event, payload)] on the emitter of [scope]: the emission
    is visible, every wait in flight sees the occurrence, and the listener
    the constructor subscribed once to the close event of the context,
    [this.once(Events.BrowserContext.Close, f)], resolves [_closedPromise]
    the first time that event is emitted on the context.  Listeners of the
    application are not part of the world; they see what the trace shows. *)
Definition emit_at (scope : Scope) (event : string) (payload : Payload) : M unit :=
  run log (Emitted scope event payload);
  run modify (fun s => set_waiters
                (map (Waiter.step (Waiter.Fired scope event payload)) (waiters s)) s);
  modify (fun s =>
    if Scope_eqb scope (ContextScope (this s)) && String.eqb event (BrowserContext_Close Events)
    then match _closedPromise s with
         | None => set_closedPromise (Some payload) s
         | Some _ => s
         end
    else s).

(** [this.emit(event, payload)] *)
Definition emit (event : string) (payload : Payload) : M unit :=
  await g <- get this;
  emit_at (ContextScope g) event payload.

(** [page.emit(event, payload)] *)
Definition page_emit (page : guid) (event : string) (payload : Payload) : M unit :=
  emit_at (PageScope page) event payload.

(** *** Handlers of the events pushed by the driver *)

Definition _onRequest (request : Request) (page : option guid) : M unit :=
  run emit (BrowserContext_Request Events) (PRequest request);
  match page with
  | Some p => page_emit p (Page_Request Events) (PRequest request)
  | None => ret tt
  end.

Definition _onResponse (response : Response) (page : option guid) : M unit :=
  run emit (BrowserContext_Response Events) (PResponse response);
  match page with
  | Some p => page_emit p (Page_Response Events) (PResponse response)
  | None => ret tt
  end.

(** [failureText || null]: an absent or empty text gives null. *)
Definition or_null (failureText : option string) : option string :=
  match failureText with
  | Some "" => None
  | Some t => Some t
  | None => None
  end.

(** [if (request._timing) request._timing.responseEnd = responseEndTiming] *)
Definition set_responseEnd (responseEndTiming : Z) (request : Request) : Request :=
  match _timing request with
  | Some _ => mkRequest (req_guid request) (req_url request) (_failureText request)
                (Some (mkTiming responseEndTiming))
  | None => request
  end.

Definition set_failureText (text : option string) (request : Request) : Request :=
  mkRequest (req_guid request) (req_url request) text (_timing request).

Definition _onRequestFailed (request : Request) (responseEndTiming : Z)
    (failureText : option string) (page : option guid) : M unit :=
  let request := set_failureText (or_null failureText) request in
  let request := set_responseEnd responseEndTiming request in
  run emit (BrowserContext_RequestFailed Events) (PRequest request);
  match page with
  | Some p => page_emit p (Page_RequestFailed Events) (PRequest request)
  | None => ret tt
  end.

Definition _onRequestFinished (request : Request) (responseEndTiming : Z)
    (page : option guid) : M unit :=
  let request := set_responseEnd responseEndTiming request in
  run emit (BrowserContext_RequestFinished Events) (PRequest request);
  match page with
  | Some p => page_emit p (Page_RequestFinished Events) (PRequest request)
  | None => ret tt
  end.

(** The loop of [_onRoute] over [this._routes]: each handler is asked in
    turn; the first that matches is told to handle the route and the loop
    returns.  The result is what the loop did and, when a handler ran, the
    handler list with that handler as [handle] left it. *)
Fixpoint for_routeHandler (routes : list RH) (route : Route) (request : Request)
    : list Action * option (list RH) :=
  match routes with
  | [] => ([], None)
  | routeHandler :: rest =>
      if matches routeHandler (req_url request)
      then ([Matched routeHandler (req_url request) true;
             Handled routeHandler route request],
            Some (handle routeHandler route request :: rest))
      else
        let '(acts, found) := for_routeHandler rest route request in
        (Matched routeHandler (req_url request) false :: acts,
         option_map (cons routeHandler) found)
  end.

(** [continued] is what [route.continue()] settles to when it is reached. *)
Definition _onRoute (route : Route) (request : Request) (continued : Result unit) : M unit :=
  await routes <- get _routes;
  let '(acts, found) := for_routeHandler routes route request in
  run modify (fun s => set_trace (trace s ++ acts) s);
  match found with
  | Some routes' => modify (set_routes routes')
  | None =>
      run log (Continued route);
      detach (promise_catch continued (fun _ => tt))
  end.

(** Modelled from the spec: [bindingCall.call(func)] of client/page.ts is
    not among the sources; it invokes the callback and reports its result or
    its failure to the remote caller, so nothing comes back to the context. *)
Definition _onBinding (bindingCall : BindingCall) : M unit :=
  await func <- get (fun s => _bindings s !! call_name bindingCall);
  match func with
  | None => ret tt
  | Some func => log (Called bindingCall func)
  end.

(** *** Methods of the context *)


(** [replied] is what the driver answers to [exposeBinding]. *)
Definition exposeBinding (name : string) (callback : BindingSource -> list Value -> Value)
    (handle_option : option bool) (replied : Result unit) : M unit :=
  _wrapApiCall (
    run channel_call (ExposeBinding name handle_option) replied;
    modify (fun s => set_bindings (<[name := callback]> (_bindings s)) s)).

Definition exposeFunction (name : string) (callback : list Value -> Value)
    (replied : Result unit) : M unit :=
  _wrapApiCall (
    run channel_call (ExposeBinding name None) replied;
    let binding := fun (source : BindingSource) (args : list Value) => callback args in
    modify (fun s => set_bindings (<[name := binding]> (_bindings s)) s)).

(** [replied] is what the driver answers to [setNetworkInterceptionEnabled]
    when the call is made. *)
Definition route (url : URLMatch) (handler : RouteHandlerCallback) (times : option Z)
    (replied : Result unit) : M unit :=
  _wrapApiCall (
    run modify (fun s => set_routes
                  (new_RouteHandler (_options_baseURL s) url handler times :: _routes s) s);
    await n <- get (fun s => length (_routes s));
    when (n =? 1)%nat (channel_call (SetNetworkInterceptionEnabled true) replied)).

Definition options_timeout (optionsOrPredicate : WaitForEventOptions) : option Z :=
  match optionsOrPredicate with
  | AsPredicate _ => None
  | AsOptions _ timeout => timeout
  end.

Definition options_predicate (optionsOrPredicate : WaitForEventOptions)
    : option (Payload -> bool) :=
  match optionsOrPredicate with
  | AsPredicate f => Some f
  | AsOptions predicate _ => predicate
  end.

(** The waiter of [waitForEvent] as it stands when the method awaits it:
    the timeout guard, the close guard unless the event waited for is the
    close event, and the subscription to the event itself. *)
Definition waitForEvent_waiter (event : string) (optionsOrPredicate : WaitForEventOptions)
    (s : State) : Waiter.t :=
  let timeout := _timeoutSettings s (options_timeout optionsOrPredicate) in
  let predicate := options_predicate optionsOrPredicate in
  let waiter := Waiter.createForEvent (ContextScope (this s)) event in
  let waiter := Waiter.rejectOnTimeout timeout
                  ("Timeout while waiting for event " ++ dquote ++ event ++ dquote)%string waiter in
  let waiter :=
    if negb (String.eqb event (BrowserContext_Close Events))
    then Waiter.rejectOnEvent (ContextScope (this s)) (BrowserContext_Close Events)
           (new_Error "Context closed") waiter
    else waiter in
  Waiter.waitForEvent (ContextScope (this s)) event predicate waiter.

(** Calling [waitForEvent] puts the waiter among the waits in flight; the
    promise the call returns is known by the place of its waiter.  Once the
    waiter has settled it has no branch left, so the [waiter.dispose()] that
    follows the [await] finds nothing to unregister. *)
Definition waitForEvent (event : string) (optionsOrPredicate : WaitForEventOptions) : M nat :=
  await waiter <- get (waitForEvent_waiter event optionsOrPredicate);
  await n <- get (fun s => length (waiters s));
  run modify (fun s => set_waiters (waiters s ++ [waiter]) s);
  ret n.

(** What the promise returned by [waitForEvent] has settled to once its
    waiter has settled to [o]: the value of the event, or the error after
    [_wrapApiCall] rethrew it. *)
Definition promised (o : Waiter.Outcome) : Waiter.Outcome :=
  match o with
  | Waiter.Rejected e => Waiter.Rejected (apiError e)
  | _ => o
  end.

Definition waitForEvent_promise (n : nat) (s : State) : option Waiter.Outcome :=
  (fun w => promised (Waiter.outcome w)) <$> waiters s !! n.

Definition _onClose : M unit :=
  run modify (set_closed true);
  run modify (fun s =>
    match _browser s with
    | Some browser =>
        set_Browser__contexts (alter (fun c => c ∖ {[this s]}) browser (Browser__contexts s)) s
    | None => s
    end);
  run modify (fun s =>
    match _browserType s with
    | Some browserType =>
        set_BrowserType__contexts
          (alter (fun c => c ∖ {[this s]}) browserType (BrowserType__contexts s)) s
    | None => s
    end);
  await g <- get this;
  emit (BrowserContext_Close Events) (PContext g).

End WithCollaborators.
End BrowserContext.

(** ** StreamImpl *)

(** A [Buffer]: a sequence of bytes. *)
Abbreviation Buffer := (list Byte.byte) (only parsing).

(** [Buffer.from(text, 'base64')] of the Node.js runtime. *)
Class BufferAPI := {
  Buffer_from_base64 : string -> list Byte.byte
}.

(** The answer of the driver to [read]: an object whose [binary] field holds
    base64 text. *)
Record StreamReadResult := mkStreamReadResult { binary : option string }.

(** Messages the stream puts on its channel. *)
Inductive StreamMessage :=
| Read (size : Z)
| Close.

Module StreamImpl.
Section WithBuffer.

Context {buffers : BufferAPI}.

(** The reader: the part of Node's [Readable] the class builds on ([ended]
    once [push(null)] was seen, [destroyed] once [destroy()] ran, and the
    chunks handed to the consumer so far), and the messages that went out
    on [_channel]. *)
Record State := mkState {
  ended : bool;
  destroyed : bool;
  consumed : list (list Byte.byte);
  sent : list StreamMessage;
  unhandledRejections : list Error
}.

Definition initial : State := mkState false false [] [] [].

(** [this.push(chunk)] of [Readable]: a chunk goes to the consumer, [null]
    ends the sequence. *)
Definition push (chunk : option (list Byte.byte)) (s : State) : State :=
  match chunk with
  | Some c =>
      mkState (ended s) (destroyed s) (consumed s ++ [c]) (sent s) (unhandledRejections s)
  | None => mkState true (destroyed s) (consumed s) (sent s) (unhandledRejections s)
  end.

Definition send (m : StreamMessage) (s : State) : State :=
  mkState (ended s) (destroyed s) (consumed s) (sent s ++ [m]) (unhandledRejections s).

(** A promise is left on its own: a rejection would be unhandled. *)
Definition detach {A} (settled : Result A) (s : State) : State :=
  mkState (ended s) (destroyed s) (consumed s) (sent s)
    (unhandledRejections s ++ unhandled settled).

(** JavaScript truthiness of [result.binary]: an absent or empty text is
    falsy. *)
Definition truthy (text : option string) : option string :=
  match text with
  | Some "" => None
  | Some t => Some t
  | None => None
  end.

(** [replied] is what the driver answers to the [read] request; when the
    request fails, the [await] throws and nothing is pushed. *)
Definition _read (size : Z) (replied : Result StreamReadResult) (s : State)
    : Result unit * State :=
  let s := send (Read size) s in
  match replied with
  | Throw e => (Throw e, s)
  | Ok result =>
      match truthy (binary result) with
      | Some text => (Ok tt, push (Some (Buffer_from_base64 text)) s)
      | None => (Ok tt, push None s)
      end
  end.

(** [super._destroy(error, callback)] of [Readable] calls back with the
    error it was given. *)
Definition super__destroy (error : option Error) (s : State) : option Error * State :=
  (error, s).

(** [closed] is what [this._channel.close()] settles to.  The result is
    the error the callback receives. *)
Definition _destroy (error : option Error) (closed : Result unit) (s : State)
    : option Error * State :=
  let s := send Close s in
  let s := detach (promise_catch closed (fun e => tt)) s in
  super__destroy error s.

(** *** How [Readable] drives the two methods *)

(** One pull of the consumer: [Readable] calls [_read] unless the sequence
    has ended or the reader was destroyed. *)
Definition pull (size : Z) (replied : Result StreamReadResult) (s : State)
    : Result unit * State :=
  if ended s || destroyed s then (Ok tt, s) else _read size replied s.

(** Pulls made one after the other, each with the answer the driver has
    for it; a failed read leaves the remaining pulls undone. *)
Fixpoint pulls (requests : list (Z * Result StreamReadResult)) (s : State)
    : Result unit * State :=
  match requests with
  | [] => (Ok tt, s)
  | (size, replied) :: rest =>
      match pull size replied s with
      | (Ok _, s') => pulls rest s'
      | (Throw e, s') => (Throw e, s')
      end
  end.

(** [readable.destroy(error)]: [Readable] runs [_destroy] the first time
    and does nothing on a reader that is destroyed already. *)
Definition destroy (error : option Error) (closed : Result unit) (s : State)
    : option Error * State :=
  if destroyed s then (None, s)
  else _destroy error closed
         (mkState (ended s) true (consumed s) (sent s) (unhandledRejections s)).

End WithBuffer.
End StreamImpl.

(** ** Sample collaborators, for running the model on concrete inputs *)

(** A route handler that keeps what it was constructed with and counts its
    calls; it matches the glob [*], a literal url, or by its predicate. *)
Record SampleRouteHandler := mkSampleRouteHandler {
  sample_baseURL : option string;
  sample_url : URLMatch;
  sample_handler : nat;
  sample_times : option Z;
  sample_handledCount : nat
}.

Definition sample_matches (h : SampleRouteHandler) (requestURL : string) : bool :=
  match sample_url h with
  | GlobMatch glob => String.eqb glob "*" || String.eqb glob requestURL
  | RegExpMatch _ => false
  | PredicateMatch f => f requestURL
  end.

Definition sample_handle (h : SampleRouteHandler) (route : Route) (request : Request)
    : SampleRouteHandler :=
  mkSampleRouteHandler (sample_baseURL h) (sample_url h) (sample_handler h) (sample_times h)
    (S (sample_handledCount h)).

Definition sample_RouteHandlerAPI : RouteHandlerAPI SampleRouteHandler :=
  {| new_RouteHandler baseURL url handler times := mkSampleRouteHandler baseURL url handler times 0;
     matches := sample_matches;
     handle := sample_handle |}.

Definition sample_Events : EventNames :=
  mkEventNames "close" "request" "response" "requestfailed" "requestfinished"
    "request" "response" "requestfailed" "requestfinished".

Definition sample_ClientEnv : ClientEnv :=
  {| Events := sample_Events;
     apiError e := mkError (err_kind e) ("browserContext: " ++ err_message e)%string |}.

(** A context with guid [context@1], owned by browser [browser@1] of browser
    type [chromium], both of which list it together with another context. *)
Definition sample_context : @BrowserContext.State SampleRouteHandler :=
  BrowserContext.mkState "context@1" [] (Some "browser@1") (Some "chromium") ∅
    (fun timeout => default 30000%Z timeout) None None false
    {[ "browser@1" := {[ "context@1"; "context@2" ]} ]}
    {[ "chromium" := {[ "context@1"; "context@2" ]} ]}
    [] [] [].

Definition sample_route : Route := mkRoute "route@1".

Definition sample_request : Request :=
  mkRequest "request@1" "https://example.com/" None None.

(** The sample context after [route('*', A)] and then [route('*', B)], the
    callbacks A and B being known as 1 and 2. *)
Definition sample_two_routes : @BrowserContext.State SampleRouteHandler :=
  snd (@BrowserContext.route _ sample_RouteHandlerAPI sample_ClientEnv
         (GlobMatch "*") 2 None (Ok tt)
         (snd (@BrowserContext.route _ sample_RouteHandlerAPI sample_ClientEnv
                 (GlobMatch "*") 1 None (Ok tt) sample_context))).

(** The sample context after [waitForEvent('page')]. *)
Definition sample_waiting : @BrowserContext.State SampleRouteHandler :=
  snd (@BrowserContext.waitForEvent _ sample_ClientEnv "page" (AsOptions None None)
         sample_context).

(** Decoding of well-formed base64 text over the standard alphabet; padding
    and characters outside the alphabet carry no bits. *)
Definition base64_digit (c : ascii) : option N :=
  let n := N_of_ascii c in
  if (65 <=? n)%N && (n <=? 90)%N then Some (n - 65)%N
  else if (97 <=? n)%N && (n <=? 122)%N then Some (n - 71)%N
  else if (48 <=? n)%N && (n <=? 57)%N then Some (n + 4)%N
  else if (n =? 43)%N then Some 62%N
  else if (n =? 47)%N then Some 63%N
  else None.

Fixpoint base64_digits (text : string) : list N :=
  match text with
  | EmptyString => []
  | String c rest =>
      match base64_digit c with
      | Some d => d :: base64_digits rest
      | None => base64_digits rest
      end
  end.

Definition byte_of_N (n : N) : Byte.byte :=
  default Byte.x00 (Byte.of_N (n mod 256)%N).

Fixpoint base64_bytes (digits : list N) : list Byte.byte :=
  match digits with
  | a :: b :: c :: d :: rest =>
      let word := (N.shiftl a 18 + N.shiftl b 12 + N.shiftl c 6 + d)%N in
      byte_of_N (N.shiftr word 16) :: byte_of_N (N.shiftr word 8) :: byte_of_N word
        :: base64_bytes rest
  | [a; b; c] =>
      let word := (N.shiftl a 18 + N.shiftl b 12 + N.shiftl c 6)%N in
      [byte_of_N (N.shiftr word 16); byte_of_N (N.shiftr word 8)]
  | [a; b] =>
      let word := (N.shiftl a 18 + N.shiftl b 12)%N in
      [byte_of_N (N.shiftr word 16)]
  | _ => []
  end.

Definition sample_BufferAPI : BufferAPI :=
  {| Buffer_from_base64 text := base64_bytes (base64_digits text) |}.

(** The bytes of an ASCII text. *)
Definition bytes_of (text : string) : list Byte.byte :=
  map byte_of_ascii (list_ascii_of_string text).

(** ** BrowserContext: unrouting *)

(** The fields of [network.RouteHandler] that [unroute] reads, and the strict
    equality [===] of the JavaScript runtime on url matchers: strings are
    equal by value, regular expressions and functions by identity. *)
Class RouteHandlerFields (RH : Type) := {
  RouteHandler_url : RH -> URLMatch;
  RouteHandler_handler : RH -> RouteHandlerCallback;
  strictly_equal : URLMatch -> URLMatch -> bool
}.

Module BrowserContextRoutes.
Section WithCollaborators.

Context {RH : Type} {handlers : RouteHandlerAPI RH} {fields : RouteHandlerFields RH}
  {env : ClientEnv}.
Import BrowserContext.

Notation "'await' x <- m ; k" := (bind m (fun x => k))
  (at level 10, x name, m at level 100, k at level 200).
Notation "'run' m ; k" := (bind m (fun _ => k))
  (at level 10, m at level 100, k at level 200).

(** The filter of [unroute]:
    [route.url !== url || (handler && route.handler !== handler)]. *)
Definition stays (url : URLMatch) (handler : option RouteHandlerCallback) (route : RH) : bool :=
  negb (strictly_equal (RouteHandler_url route) url)
  || match handler with
     | Some h => negb (RouteHandler_handler route =? h)%nat
     | None => false
     end.

(** [replied] is what the driver answers to [setNetworkInterceptionEnabled]
    when the call is made. *)
Definition unroute (url : URLMatch) (handler : option RouteHandlerCallback)
    (replied : Result unit) : M unit :=
  _wrapApiCall (
    run modify (fun s => set_routes (List.filter (stays url handler) (_routes s)) s);
    await n <- get (fun s => length (_routes s));
    when (n =? 0)%nat (channel_call (SetNetworkInterceptionEnabled false) replied)).

(** Whether an entry of the trace answers a route: a handler was told to
    handle it, or it was continued. *)
Definition answers (a : @Action RH) : bool :=
  match a with
  | Handled _ _ _ => true
  | Continued _ => true
  | _ => false
  end.

(** Whether an entry of the trace is a message on the channel. *)
Definition is_sent (a : @Action RH) : bool :=
  match a with
  | Sent _ => true
  | _ => false
  end.

End WithCollaborators.
End BrowserContextRoutes.

(** ** BrowserContext: pages, sessions and closing *)

(** More names of client/events.ts, and [isSafeCloseError] of utils/errors.ts;
    neither file is among the sources. *)
Class ApiEnv := {
  BrowserContext_Page : string;
  BrowserContext_BackgroundPage : string;
  Page_Popup : string;
  isSafeCloseError : Error -> bool
}.

(** [network.NetworkCookie], by name and value. *)
Record NetworkCookie := mkNetworkCookie { cookie_name : string; cookie_value : string }.

(** The [urls] argument of [cookies]: absent, one url, or an array. *)
Inductive CookieUrls :=
| NoUrls
| OneUrl (url : string)
| ManyUrls (urls : list string).


(** Messages of these methods on the channel of the context. *)
Inductive ApiMessage :=
| NewPage
| Cookies (urls : list string)
| NewCDPSessionForPage (page : guid)
| NewCDPSessionForFrame (frame : guid)
| HarExport
| CloseContext.

(** What these methods do outside the context: a message on its channel, the
    hook of the browser type, or a call on the artifact of the HAR export. *)
Inductive Effect :=
| Channel (m : ApiMessage)
| WillCloseContext (browserType : guid)
| ArtifactSaveAs (artifact : guid) (isRemote : bool) (path : string)
| ArtifactDelete (artifact : guid).

(** What the collaborators of [close()] settle to, each when it is reached:
    the [_onWillCloseContext] hook ([None] when the browser type has none),
    [harExport] with the guid of its artifact, [artifact.saveAs],
    [artifact.delete], and [channel.close]. *)
Record CloseReplies := mkCloseReplies {
  willClose : option (Result unit);
  harExported : Result guid;
  savedAs : Result unit;
  deleted : Result unit;
  closed : Result unit
}.

(** How far [close()] has come when nothing more can happen without the
    driver: it has returned, or it is suspended in [await this._closedPromise]
    until the close event arrives. *)
Inductive Completion :=
| Completed
| AwaitingCloseEvent.

Module BrowserContextApi.
Section WithCollaborators.

Context {RH : Type} {env : ClientEnv} {api : ApiEnv}.
Import BrowserContext.

(** The whole context: the part above, the remaining fields ([_pages] and
    [_backgroundPages] in insertion order, as a JavaScript [Set] iterates;
    [_options_recordHar] is the path of [_options.recordHar] when that option
    is set), the fields of other proxies these methods read (the opener of a
    page, the pages that are closed, the [_remoteType] of a browser), and the
    effects outside the context. *)
Record Whole := mkWhole {
  core : @State RH;
  _pages : list guid;
  _backgroundPages : list guid;
  _ownerPage : option guid;
  _options_recordHar : option string;
  Page__opener : gmap string string;
  Page__closed : gset string;
  Browser__remoteType : gmap string string;
  effects : list Effect
}.

Definition set_core (c : @State RH) (w : Whole) : Whole :=
  mkWhole c (_pages w) (_backgroundPages w) (_ownerPage w) (_options_recordHar w)
    (Page__opener w) (Page__closed w) (Browser__remoteType w) (effects w).

Definition set_pages (ps : list guid) (w : Whole) : Whole :=
  mkWhole (core w) ps (_backgroundPages w) (_ownerPage w) (_options_recordHar w)
    (Page__opener w) (Page__closed w) (Browser__remoteType w) (effects w).

Definition set_backgroundPages (ps : list guid) (w : Whole) : Whole :=
  mkWhole (core w) (_pages w) ps (_ownerPage w) (_options_recordHar w)
    (Page__opener w) (Page__closed w) (Browser__remoteType w) (effects w).

Definition set_effects (es : list Effect) (w : Whole) : Whole :=
  mkWhole (core w) (_pages w) (_backgroundPages w) (_ownerPage w) (_options_recordHar w)
    (Page__opener w) (Page__closed w) (Browser__remoteType w) es.

Definition MX (A : Type) : Type := Whole -> Result A * Whole.

Definition retx {A} (a : A) : MX A := fun w => (Ok a, w).

Definition throw {A} (e : Error) : MX A := fun w => (Throw e, w).

Definition bindx {A B} (m : MX A) (k : A -> MX B) : MX B :=
  fun w =>
    match m w with
    | (Ok a, w') => k a w'
    | (Throw e, w') => (Throw e, w')
    end.

Notation "'await' x <- m ; k" := (bindx m (fun x => k))
  (at level 10, x name, m at level 100, k at level 200).
Notation "'run' m ; k" := (bindx m (fun _ => k))
  (at level 10, m at level 100, k at level 200).

Definition getx {A} (f : Whole -> A) : MX A := fun w => (Ok (f w), w).

Definition modifyx (f : Whole -> Whole) : MX unit := fun w => (Ok tt, f w).

(** A computation on the part above, run on the whole. *)
Definition lift {A} (m : M A) : MX A :=
  fun w => let '(r, c) := m (core w) in (r, set_core c w).

(** [await callee(...)]: the call is made and settles as the callee
    replied. *)
Definition call {A} (e : Effect) (replied : Result A) : MX A :=
  fun w => (replied, set_effects (effects w ++ [e]) w).

(** [_wrapApiCall], as above, around a computation on the whole. *)
Definition _wrapApiCallX {A} (body : MX A) : MX A :=
  fun w =>
    match body w with
    | (Ok a, w') => (Ok a, w')
    | (Throw e, w') => (Throw (apiError e), w')
    end.

(** [try { body } catch (e) { handler(e) }] *)
Definition try_catch {A} (body : MX A) (handler : Error -> MX A) : MX A :=
  fun w =>
    match body w with
    | (Ok a, w') => (Ok a, w')
    | (Throw e, w') => handler e w'
    end.

(** [set.add(x)] on a [Set] kept in insertion order. *)
Definition Set_add (x : guid) (set : list guid) : list guid :=
  if existsb (String.eqb x) set then set else set ++ [x].

(** JavaScript truthiness of an optional string. *)
Definition truthy_string (text : option string) : bool :=
  match text with
  | Some "" => false
  | Some _ => true
  | None => false
  end.

(** *** Pages *)

Definition _onPage (page : guid) : MX unit :=
  run modifyx (fun w => set_pages (Set_add page (_pages w)) w);
  run lift (emit BrowserContext_Page (PPage page));
  await opener <- getx (fun w => Page__opener w !! page);
  match opener with
  | Some opener =>
      await isClosed <- getx (fun w => bool_decide (opener ∈ Page__closed w));
      if negb isClosed then lift (page_emit opener Page_Popup (PPage page)) else retx tt
  | None => retx tt
  end.

(** The listener of [backgroundPage] in the constructor. *)
Definition on_backgroundPage (page : guid) : MX unit :=
  run modifyx (fun w => set_backgroundPages (Set_add page (_backgroundPages w)) w);
  lift (emit BrowserContext_BackgroundPage (PPage page)).

Definition pages (w : Whole) : list guid := _pages w.

Definition backgroundPages (w : Whole) : list guid := _backgroundPages w.

(** Page events handled one after the other. *)
Fixpoint on_pages (announced : list guid) : MX unit :=
  match announced with
  | [] => retx tt
  | page :: rest => run _onPage page; on_pages rest
  end.


(** *** Cookies *)

(** [if (!urls) urls = [];] *)
Definition urls_or_empty (urls : CookieUrls) : CookieUrls :=
  match urls with
  | NoUrls => ManyUrls []
  | OneUrl "" => ManyUrls []
  | _ => urls
  end.

(** [if (urls && typeof urls === 'string') urls = [ urls ];] *)
Definition urls_as_array (urls : CookieUrls) : CookieUrls :=
  match urls with
  | OneUrl "" => urls
  | OneUrl url => ManyUrls [url]
  | _ => urls
  end.

(** [urls as string[]]: an array is what is left at this point. *)
Definition urls_array (urls : CookieUrls) : list string :=
  match urls with
  | ManyUrls us => us
  | OneUrl url => [url]
  | NoUrls => []
  end.

Definition cookies (urls : CookieUrls) (replied : Result (list NetworkCookie))
    : MX (list NetworkCookie) :=
  let urls := urls_or_empty urls in
  let urls := urls_as_array urls in
  _wrapApiCallX (call (Channel (Cookies (urls_array urls))) replied).

(** *** CDP sessions *)


(** *** Closing *)

(** [this.browser()?._remoteType], as a condition. *)
Definition browser_is_remote (w : Whole) : bool :=
  match _browser (core w) with
  | Some browser => truthy_string (Browser__remoteType w !! browser)
  | None => false
  end.

(** The body that [close()] hands to [_wrapApiCall]. *)
Definition close_body (replies : CloseReplies) : MX Completion :=
  await browserType <- getx (fun w => _browserType (core w));
  run match browserType, willClose replies with
      | Some browserType, Some replied => call (WillCloseContext browserType) replied
      | _, _ => retx tt
      end;
  await recordHar <- getx _options_recordHar;
  run match recordHar with
      | Some path =>
          await artifact <- call (Channel HarExport) (harExported replies);
          await isRemote <- getx browser_is_remote;
          run call (ArtifactSaveAs artifact isRemote path) (savedAs replies);
          call (ArtifactDelete artifact) (deleted replies)
      | None => retx tt
      end;
  run call (Channel CloseContext) (closed replies);
  await closedPromise <- getx (fun w => _closedPromise (core w));
  match closedPromise with
  | Some _ => retx Completed
  | None => retx AwaitingCloseEvent
  end.

(** Whether a call settled without an error. *)
Definition fulfilled {A} (settled : Result A) : bool :=
  match settled with
  | Ok _ => true
  | Throw _ => false
  end.

(** Steps made one after the other, each with whether it went well: the
    steps that were made are those up to and including the first that did
    not go well. *)
Fixpoint until_failure (steps : list (Effect * bool)) : list Effect :=
  match steps with
  | [] => []
  | (step, went_well) :: rest => step :: if went_well then until_failure rest else []
  end.

(** The steps of [close()] in the order of the source: the hook of the
    browser type if there is one; with [recordHar], the export, then saving
    the artifact, then deleting it; and the [close] message. *)
Definition close_steps (replies : CloseReplies) (w : Whole) : list (Effect * bool) :=
  match _browserType (core w), willClose replies with
  | Some browserType, Some replied => [(WillCloseContext browserType, fulfilled replied)]
  | _, _ => []
  end ++
  match _options_recordHar w, harExported replies with
  | Some path, Ok artifact =>
      [(Channel HarExport, true);
       (ArtifactSaveAs artifact (browser_is_remote w) path, fulfilled (savedAs replies));
       (ArtifactDelete artifact, fulfilled (deleted replies))]
  | Some path, Throw _ => [(Channel HarExport, false)]
  | None, _ => []
  end ++
  [(Channel CloseContext, fulfilled (closed replies))].

Definition close (replies : CloseReplies) : MX Completion :=
  try_catch (_wrapApiCallX (close_body replies))
    (fun e => if isSafeCloseError e then retx Completed else throw e).

End WithCollaborators.
End BrowserContextApi.

(** ** prepareBrowserContextParams *)

Record Size := mkSize { width : Z; height : Z }.

(** The [viewport] option: not given, [null], or a size. *)
Inductive ViewportOption :=
| ViewportUndefined
| ViewportNull
| ViewportOf (size : Size).

Record RecordVideo := mkRecordVideo { dir : string; size : option Size }.

(** A [StorageState], by its cookies. *)
Record StorageState := mkStorageState { state_cookies : list NetworkCookie }.

(** The [storageState] option: the path of a file, or the state itself. *)
Inductive StorageStateOption :=
| StorageStateFile (path : string)
| StorageStateValue (state : StorageState).

(** The options the function looks at; the spread [...options] hands on the
    others untouched, and with them [videosPath] and [videoSize]. *)
Record BrowserContextOptions := mkBrowserContextOptions {
  viewport : ViewportOption;
  videosPath : option string;
  videoSize : option Size;
  recordVideo : option RecordVideo;
  extraHTTPHeaders : option (list (string * string));
  storageState : option StorageStateOption
}.

Record BrowserNewContextParams := mkBrowserNewContextParams {
  params_viewport : option Size;
  noDefaultViewport : bool;
  params_videosPath : option string;
  params_videoSize : option Size;
  params_recordVideo : option RecordVideo;
  params_extraHTTPHeaders : option (list (string * string));
  params_storageState : option StorageState
}.

(** [network.validateHeaders], which throws on headers it rejects, and
    [headersObjectToArray] of utils/utils.ts; neither is among the sources. *)
Class HeadersAPI := {
  validateHeaders : list (string * string) -> Result unit;
  headersObjectToArray : list (string * string) -> list (string * string)
}.

Module ContextParams.
Section WithHeaders.

Context {headers : HeadersAPI}.

(** JavaScript truthiness of an optional string. *)
Definition truthy_path (text : option string) : bool :=
  match text with
  | Some "" => false
  | Some _ => true
  | None => false
  end.

Definition videoSize_requires_videosPath : Error :=
  new_Error (dquote ++ "videoSize" ++ dquote ++ " option requires " ++ dquote
             ++ "videosPath" ++ dquote ++ " to be specified")%string.

(** The object literal and the lines after it, once [storageState] is known. *)
Definition contextParams (options : BrowserContextOptions) (state : option StorageState)
    : BrowserNewContextParams :=
  let params :=
    mkBrowserNewContextParams
      match viewport options with
      | ViewportNull => None
      | ViewportUndefined => None
      | ViewportOf size => Some size
      end
      match viewport options with
      | ViewportNull => true
      | _ => false
      end
      (videosPath options)
      (videoSize options)
      (recordVideo options)
      match extraHTTPHeaders options with
      | Some h => Some (headersObjectToArray h)
      | None => None
      end
      state in
  match params_recordVideo params, videosPath options with
  | None, Some path =>
      if truthy_path (Some path)
      then mkBrowserNewContextParams (params_viewport params) (noDefaultViewport params)
             (params_videosPath params) (params_videoSize params)
             (Some (mkRecordVideo path (videoSize options)))
             (params_extraHTTPHeaders params) (params_storageState params)
      else params
  | _, _ => params
  end.

(** [read] is what reading and parsing the storage state file settles to
    when it is reached.  The result comes with the files that were read. *)
Definition prepareBrowserContextParams (options : BrowserContextOptions)
    (read : Result StorageState) : Result BrowserNewContextParams * list string :=
  match videoSize options, truthy_path (videosPath options) with
  | Some _, false => (Throw videoSize_requires_videosPath, [])
  | _, _ =>
      match match extraHTTPHeaders options with
            | Some h => validateHeaders h
            | None => Ok tt
            end with
      | Throw e => (Throw e, [])
      | Ok _ =>
          match storageState options with
          | Some (StorageStateFile path) =>
              match read with
              | Ok state => (Ok (contextParams options (Some state)), [path])
              | Throw e => (Throw e, [path])
              end
          | Some (StorageStateValue state) => (Ok (contextParams options (Some state)), [])
          | None => (Ok (contextParams options None), [])
          end
      end
  end.

End WithHeaders.
End ContextParams.

(** ** StreamImpl: a reader in use *)

(** What happens to a reader, one thing after the other: the consumer pulls
    and the driver answers, or somebody destroys the reader and the driver
    answers the close. *)
Inductive StreamUse :=
| Pulls (size : Z) (replied : Result StreamReadResult)
| Destroys (error : option Error) (closed : Result unit).

Module StreamLife.
Section WithBuffer.

Context {buffers : BufferAPI}.
Import StreamImpl.

(** [Readable] calls [_read] without awaiting the promise it returns, so a
    read that fails is a rejection nobody handles. *)
Definition use (u : StreamUse) (s : State) : State :=
  match u with
  | Pulls size replied =>
      let '(settled, s') := pull size replied s in
      detach settled s'
  | Destroys error closed => snd (destroy error closed s)
  end.

Definition uses (us : list StreamUse) (s : State) : State :=
  fold_left (fun acc u => use u acc) us s.

(** The leading answers that carry data, up to the first that carries none. *)
Fixpoint chunks_before_end (answers : list StreamReadResult) : list string :=
  match answers with
  | [] => []
  | answer :: rest =>
      match truthy (binary answer) with
      | Some text => text :: chunks_before_end rest
      | None => []
      end
  end.

(** The pulls that reach the driver: all up to and including the first that
    is answered without data. *)
Fixpoint asked_before_end (requests : list (Z * StreamReadResult)) : list Z :=
  match requests with
  | [] => []
  | (size, answer) :: rest =>
      match truthy (binary answer) with
      | Some _ => size :: asked_before_end rest
      | None => [size]
      end
  end.

End WithBuffer.
End StreamLife.

(** ** Further sample collaborators *)

(** On the sample handlers, [url] and [handler] are what the constructor was
    given; globs are equal by value, and a regular expression or a function
    is taken to be a different object each time it is written. *)
Definition sample_strictly_equal (a b : URLMatch) : bool :=
  match a, b with
  | GlobMatch x, GlobMatch y => String.eqb x y
  | _, _ => false
  end.

Definition sample_RouteHandlerFields : RouteHandlerFields SampleRouteHandler :=
  {| RouteHandler_url := sample_url;
     RouteHandler_handler := sample_handler;
     strictly_equal := sample_strictly_equal |}.

Definition sample_ends_with_closed (message : string) : bool :=
  String.eqb (substring (String.length message - 6) 6 message) "closed".

Definition sample_ApiEnv : ApiEnv :=
  {| BrowserContext_Page := "page";
     BrowserContext_BackgroundPage := "backgroundpage";
     Page_Popup := "popup";
     isSafeCloseError e := sample_ends_with_closed (err_message e) |}.

(** The sample context with [recordHar] set to [trace.har]; [popup@1] was
    opened by [page@1], [popup@2] by [page@2], which is closed. *)
Definition sample_world : @BrowserContextApi.Whole SampleRouteHandler :=
  BrowserContextApi.mkWhole sample_context [] [] None (Some "trace.har")
    {[ "popup@1" := "page@1"; "popup@2" := "page@2" ]} {[ "page@2" ]} ∅ [].


Definition sample_replies : CloseReplies :=
  mkCloseReplies None (Ok "artifact@1") (Ok tt) (Ok tt) (Ok tt).

(** Headers are rejected when a name is empty, and listed as they are. *)
Definition sample_HeadersAPI : HeadersAPI :=
  {| validateHeaders h :=
       if forallb (fun nv => negb (String.eqb (fst nv) "")) h
       then Ok tt else Throw (new_Error "Expected header name");
     headersObjectToArray h := h |}.

Definition sample_options : BrowserContextOptions :=
  mkBrowserContextOptions ViewportNull (Some "videos") (Some (mkSize 800 600)) None
    (Some [("x-test", "1")]) (Some (StorageStateFile "state.json")).

(** * Properties *)

(** ** The waiter *)

Lemma first_fired_app (bs cs : list Waiter.Branch) (o : Waiter.Occurrence) :
  Waiter.first_fired (bs ++ cs) o =
  match Waiter.first_fired bs o with
  | Some r => Some r
  | None => Waiter.first_fired cs o
  end.
Proof.
  induction bs as [|b bs IH]; simpl; [reflexivity|].
  destruct (Waiter.fires b o); [reflexivity | exact IH].
Qed.

Lemma step_settled (o : Waiter.Occurrence) (w : Waiter.t) :
  Waiter.outcome w <> Waiter.Pending -> Waiter.step o w = w.
Proof.
  unfold Waiter.step. destruct (Waiter.outcome w); congruence.
Qed.

Lemma run_settled (os : list Waiter.Occurrence) (w : Waiter.t) :
  Waiter.outcome w <> Waiter.Pending -> Waiter.run w os = w.
Proof.
  induction os as [|o os IH]; intros Hw; simpl; [reflexivity|].
  rewrite step_settled by exact Hw. apply IH, Hw.
Qed.

Lemma run_app (w : Waiter.t) (os ps : list Waiter.Occurrence) :
  Waiter.run w (os ++ ps) = Waiter.run (Waiter.run w os) ps.
Proof. unfold Waiter.run. apply fold_left_app. Qed.

Lemma fires_settles (b : Waiter.Branch) (o : Waiter.Occurrence) (r : Waiter.Outcome) :
  Waiter.fires b o = Some r -> r <> Waiter.Pending.
Proof.
  destruct b, o; simpl; try discriminate.
  all: match goal with |- context [if ?c then _ else _] => destruct c end.
  all: intros [= <-] || discriminate; discriminate.
Qed.

Lemma first_fired_settles (bs : list Waiter.Branch) (o : Waiter.Occurrence)
    (r : Waiter.Outcome) :
  Waiter.first_fired bs o = Some r -> r <> Waiter.Pending.
Proof.
  induction bs as [|b bs IH]; simpl; [discriminate|].
  destruct (Waiter.fires b o) eqn:Hb; [|exact IH].
  intros [= <-]. eapply fires_settles, Hb.
Qed.

Lemma step_fired (o : Waiter.Occurrence) (w : Waiter.t) (r : Waiter.Outcome) :
  Waiter.outcome w = Waiter.Pending ->
  Waiter.first_fired (Waiter.branches w) o = Some r ->
  Waiter.step o w = Waiter.mk [] r.
Proof. intros Hw Hr. unfold Waiter.step. rewrite Hw, Hr. reflexivity. Qed.

Lemma step_same_or_settled (o : Waiter.Occurrence) (w : Waiter.t) :
  Waiter.step o w = w \/ Waiter.outcome (Waiter.step o w) <> Waiter.Pending.
Proof.
  unfold Waiter.step. destruct (Waiter.outcome w) eqn:Hw; [|left; reflexivity..].
  destruct (Waiter.first_fired (Waiter.branches w) o) eqn:Hr; [|left; reflexivity].
  right. simpl. eapply first_fired_settles, Hr.
Qed.

(** A wait that is still pending has all its branches. *)
Lemma run_pending (os : list Waiter.Occurrence) (w : Waiter.t) :
  Waiter.outcome (Waiter.run w os) = Waiter.Pending -> Waiter.run w os = w.
Proof.
  revert w. induction os as [|o os IH]; intros w Hp; simpl in *; [reflexivity|].
  destruct (step_same_or_settled o w) as [Hsame|Hset].
  - rewrite Hsame in *. apply IH, Hp.
  - exfalso. apply Hset.
    change (fold_left (fun acc o => Waiter.step o acc) os (Waiter.step o w))
      with (Waiter.run (Waiter.step o w) os) in Hp.
    rewrite (run_settled os _ Hset) in Hp. exact Hp.
Qed.

(** Whatever a wait settles to was produced by one of its branches on one of
    the occurrences. *)
Lemma run_outcome (os : list Waiter.Occurrence) (w : Waiter.t) (r : Waiter.Outcome) :
  Waiter.outcome w = Waiter.Pending ->
  Waiter.outcome (Waiter.run w os) = r ->
  r <> Waiter.Pending ->
  exists o, In o os /\ Waiter.first_fired (Waiter.branches w) o = Some r.
Proof.
  revert w. induction os as [|o os IH]; intros w Hw Hr Hset; simpl in Hr.
  - congruence.
  - change (Waiter.outcome (Waiter.run (Waiter.step o w) os) = r) in Hr.
    destruct (Waiter.first_fired (Waiter.branches w) o) as [r0|] eqn:Hfired.
    + rewrite (step_fired o w r0 Hw Hfired) in Hr.
      rewrite run_settled in Hr by (simpl; eapply first_fired_settles, Hfired).
      simpl in Hr. subst r0. exists o. split; [left; reflexivity | exact Hfired].
    + assert (Hsame : Waiter.step o w = w)
        by (unfold Waiter.step; rewrite Hw, Hfired; reflexivity).
      rewrite Hsame in Hr. destruct (IH w Hw Hr Hset) as (o' & Hin & Hf).
      exists o'. split; [right; exact Hin | exact Hf].
Qed.

(** A pending wait meets one more occurrence. *)
Lemma run_then_fired (w : Waiter.t) (earlier : list Waiter.Occurrence)
    (o : Waiter.Occurrence) (r : Waiter.Outcome) :
  Waiter.outcome w = Waiter.Pending ->
  Waiter.outcome (Waiter.run w earlier) = Waiter.Pending ->
  Waiter.first_fired (Waiter.branches w) o = Some r ->
  Waiter.outcome (Waiter.run w (earlier ++ [o])) = r.
Proof.
  intros Hw Hp Hr. rewrite run_app, (run_pending earlier w Hp). simpl.
  rewrite (step_fired o w r Hw Hr). reflexivity.
Qed.

(** ** The browser context *)

Section BrowserContextProperties.

Context {RH : Type} {handlers : RouteHandlerAPI RH} {env : ClientEnv}.
Import BrowserContext.

Local Abbreviation Ctx := (@State RH).

Lemma emit_at_spec (scope : Scope) (event : string) (payload : Payload) (s : Ctx) :
  exists s' : Ctx,
    emit_at scope event payload s = (Ok tt, s') /\
    trace s' = trace s ++ [Emitted scope event payload] /\
    waiters s' = map (Waiter.step (Waiter.Fired scope event payload)) (waiters s) /\
    _closedPromise s' =
      (if Scope_eqb scope (ContextScope (this s)) &&
          String.eqb event (BrowserContext_Close Events)
       then match _closedPromise s with None => Some payload | Some v => Some v end
       else _closedPromise s) /\
    this s' = this s /\ _routes s' = _routes s /\ _bindings s' = _bindings s /\
    _closed s' = _closed s /\ Browser__contexts s' = Browser__contexts s /\
    BrowserType__contexts s' = BrowserType__contexts s /\
    unhandledRejections s' = unhandledRejections s.
Proof.
  unfold emit_at, bind, log, modify. simpl.
  destruct (Scope_eqb scope (ContextScope (this s)) &&
            String.eqb event (BrowserContext_Close Events));
    [destruct (_closedPromise s) eqn:E|];
    eexists; (split; [reflexivity|]); simpl; rewrite ?E; repeat split; reflexivity.
Qed.

Lemma emit_then_page_emit (contextEvent pageEvent : string) (payload : Payload)
    (page : option guid) (s : Ctx) :
  let both :=
    bind (emit contextEvent payload)
         (fun _ => match page with
                   | Some p => page_emit p pageEvent payload
                   | None => ret tt
                   end) in
  fst (both s) = Ok tt /\
  trace (snd (both s)) =
    trace s ++ Emitted (ContextScope (this s)) contextEvent payload
            :: match page with
               | Some p => [Emitted (PageScope p) pageEvent payload]
               | None => []
               end.
Proof.
  unfold emit, page_emit, bind, get, ret.
  destruct (emit_at_spec (ContextScope (this s)) contextEvent payload s)
    as (s1 & -> & Ht & _).
  destruct page as [p|]; cbv beta iota.
  - destruct (emit_at_spec (PageScope p) pageEvent payload s1) as (s2 & -> & Ht2 & _).
    simpl. rewrite Ht2, Ht, <- app_assoc. split; reflexivity.
  - simpl. rewrite Ht. split; reflexivity.
Qed.

(** C8.  Each of the request, response, requestFailed and requestFinished
    handlers answers one pushed event with one emission on the context and,
    exactly when the event names a page, one more on that page: the trace
    grows by these emissions and by nothing else, so by one entry without
    a page and by two with one. *)
Theorem network_event_fans_out_to_context_and_page
    (s : Ctx) (request : Request) (response : Response)
    (responseEndTiming : Z) (failureText : option string) (page : option guid) :
  let on_page (event : string) (payload : Payload) :=
    match page with
    | Some p => [Emitted (PageScope p) event payload]
    | None => []
    end in
  let failed := set_responseEnd responseEndTiming
                  (set_failureText (or_null failureText) request) in
  let finished := set_responseEnd responseEndTiming request in
  let grown (after : Ctx) :=
    length (trace after) =
    (length (trace s) + match page with Some _ => 2 | None => 1 end)%nat in
  (fst (_onRequest request page s) = Ok tt /\
   trace (snd (_onRequest request page s)) =
     trace s ++ Emitted (ContextScope (this s)) (BrowserContext_Request Events)
                  (PRequest request)
             :: on_page (Page_Request Events) (PRequest request) /\
   grown (snd (_onRequest request page s))) /\
  (fst (_onResponse response page s) = Ok tt /\
   trace (snd (_onResponse response page s)) =
     trace s ++ Emitted (ContextScope (this s)) (BrowserContext_Response Events)
                  (PResponse response)
             :: on_page (Page_Response Events) (PResponse response) /\
   grown (snd (_onResponse response page s))) /\
  (fst (_onRequestFailed request responseEndTiming failureText page s) = Ok tt /\
   trace (snd (_onRequestFailed request responseEndTiming failureText page s)) =
     trace s ++ Emitted (ContextScope (this s)) (BrowserContext_RequestFailed Events)
                  (PRequest failed)
             :: on_page (Page_RequestFailed Events) (PRequest failed) /\
   grown (snd (_onRequestFailed request responseEndTiming failureText page s))) /\
  (fst (_onRequestFinished request responseEndTiming page s) = Ok tt /\
   trace (snd (_onRequestFinished request responseEndTiming page s)) =
     trace s ++ Emitted (ContextScope (this s)) (BrowserContext_RequestFinished Events)
                  (PRequest finished)
             :: on_page (Page_RequestFinished Events) (PRequest finished) /\
   grown (snd (_onRequestFinished request responseEndTiming page s))).
Proof.
  intros on_page failed finished grown.
  assert (Hgrown : forall (after : Ctx) (a : Action) (event : string) (payload : Payload),
             trace after = trace s ++ a :: on_page event payload -> grown after).
  { intros after a event payload Ht. unfold grown. rewrite Ht, length_app.
    unfold on_page. destruct page; simpl; lia. }
  destruct (emit_then_page_emit (BrowserContext_Request Events) (Page_Request Events)
              (PRequest request) page s) as [R1 R2].
  destruct (emit_then_page_emit (BrowserContext_Response Events) (Page_Response Events)
              (PResponse response) page s) as [P1 P2].
  destruct (emit_then_page_emit (BrowserContext_RequestFailed Events)
              (Page_RequestFailed Events) (PRequest failed) page s) as [F1 F2].
  destruct (emit_then_page_emit (BrowserContext_RequestFinished Events)
              (Page_RequestFinished Events) (PRequest finished) page s) as [D1 D2].
  split; [|split; [|split]]; (split; [|split]).
  - exact R1.
  - exact R2.
  - exact (Hgrown _ _ _ _ R2).
  - exact P1.
  - exact P2.
  - exact (Hgrown _ _ _ _ P2).
  - exact F1.
  - exact F2.
  - exact (Hgrown _ _ _ _ F2).
  - exact D1.
  - exact D2.
  - exact (Hgrown _ _ _ _ D2).
Qed.

(** *** Routing *)

Lemma for_routeHandler_hit (pre post : list RH) (h : RH) (intercepted : Route)
    (request : Request) :
  Forall (fun r => matches r (req_url request) = false) pre ->
  matches h (req_url request) = true ->
  for_routeHandler (pre ++ h :: post) intercepted request =
    (map (fun r => Matched r (req_url request) false) pre
       ++ [Matched h (req_url request) true; Handled h intercepted request],
     Some (pre ++ handle h intercepted request :: post)).
Proof.
  intros Hpre Hh. induction Hpre as [|r pre Hr _ IH]; simpl.
  - rewrite Hh. reflexivity.
  - rewrite Hr, IH. reflexivity.
Qed.

Lemma for_routeHandler_miss (routes : list RH) (intercepted : Route) (request : Request) :
  Forall (fun r => matches r (req_url request) = false) routes ->
  for_routeHandler routes intercepted request =
    (map (fun r => Matched r (req_url request) false) routes, None).
Proof.
  intros Hall. induction Hall as [|r routes Hr _ IH]; simpl; [reflexivity|].
  rewrite Hr, IH. reflexivity.
Qed.

(** C1.  [route()] puts the new handler at the head of [_routes], whatever
    the driver replies.  A route event asks the handlers in list order; the
    first one that matches the url of the request is told to handle the
    route, and no handler behind it is asked.  When none matches, the route
    is continued, the handler returns normally and no rejection is left
    unhandled, whatever the continuation settles to. *)
Theorem route_event_goes_to_first_matching_handler
    (s : Ctx) (intercepted : Route) (request : Request) (continued : Result unit) :
  let url := req_url request in
  let declined (hs : list RH) := map (fun h => Matched h url false) hs in
  (forall (pattern : URLMatch) (handler : RouteHandlerCallback) (times : option Z)
          (replied : Result unit),
      _routes (snd (route pattern handler times replied s)) =
        new_RouteHandler (_options_baseURL s) pattern handler times :: _routes s) /\
  (forall (pre post : list RH) (h : RH),
      _routes s = pre ++ h :: post ->
      Forall (fun r => matches r url = false) pre ->
      matches h url = true ->
      fst (_onRoute intercepted request continued s) = Ok tt /\
      trace (snd (_onRoute intercepted request continued s)) =
        trace s ++ declined pre ++ [Matched h url true; Handled h intercepted request] /\
      _routes (snd (_onRoute intercepted request continued s)) =
        pre ++ handle h intercepted request :: post) /\
  (Forall (fun r => matches r url = false) (_routes s) ->
      fst (_onRoute intercepted request continued s) = Ok tt /\
      trace (snd (_onRoute intercepted request continued s)) =
        trace s ++ declined (_routes s) ++ [Continued intercepted] /\
      unhandledRejections (snd (_onRoute intercepted request continued s)) =
        unhandledRejections s /\
      _routes (snd (_onRoute intercepted request continued s)) = _routes s).
Proof.
  intros url declined. split; [|split].
  - intros pattern handler times replied.
    unfold route, _wrapApiCall, bind, modify, get, when, channel_call, log, bind, ret.
    simpl. destruct (length (_routes s)) as [|n]; simpl.
    + destruct replied; reflexivity.
    + reflexivity.
  - intros pre post h Hroutes Hpre Hh.
    unfold _onRoute, bind, get. rewrite Hroutes.
    rewrite (for_routeHandler_hit pre post h intercepted request Hpre Hh).
    simpl. repeat split.
  - intros Hnone.
    unfold _onRoute, bind, get.
    rewrite (for_routeHandler_miss (_routes s) intercepted request Hnone).
    simpl. destruct continued; simpl; rewrite ?app_nil_r, <- ?app_assoc; repeat split.
Qed.

(** *** Bindings *)

(** C7.  A binding call under a name that has no callback in [_bindings]
    changes nothing: no callback runs, nothing is emitted or sent, and the
    handler returns normally. *)
Theorem binding_call_without_callback_is_dropped (s : Ctx) (bindingCall : BindingCall) :
  _bindings s !! call_name bindingCall = None ->
  _onBinding bindingCall s = (Ok tt, s).
Proof.
  intros Hnone. unfold _onBinding, bind, get. rewrite Hnone. reflexivity.
Qed.

Lemma exposeBinding_replied (s : Ctx) (name : string)
    (callback : BindingSource -> list Value -> Value) (handle_option : option bool)
    (replied : Result unit) :
  exposeBinding name callback handle_option replied s =
    match replied with
    | Ok _ => (Ok tt,
               set_bindings (<[name := callback]> (_bindings s))
                 (set_trace (trace s ++ [Sent (ExposeBinding name handle_option)]) s))
    | Throw e => (Throw (apiError e),
                  set_trace (trace s ++ [Sent (ExposeBinding name handle_option)]) s)
    end.
Proof.
  unfold exposeBinding, _wrapApiCall, channel_call, bind, log, modify.
  destruct replied; reflexivity.
Qed.

Lemma exposeFunction_replied (s : Ctx) (name : string) (callback : list Value -> Value)
    (replied : Result unit) :
  exposeFunction name callback replied s =
    match replied with
    | Ok _ => (Ok tt,
               set_bindings (<[name := fun _ args => callback args]> (_bindings s))
                 (set_trace (trace s ++ [Sent (ExposeBinding name None)]) s))
    | Throw e => (Throw (apiError e),
                  set_trace (trace s ++ [Sent (ExposeBinding name None)]) s)
    end.
Proof.
  unfold exposeFunction, _wrapApiCall, channel_call, bind, log, modify.
  destruct replied; reflexivity.
Qed.

(** C6.  Once the driver has accepted the registration, [exposeBinding]
    stores the callback, and [exposeFunction] the callback behind an
    adapter that drops the source argument, under the given name, whatever
    the registry held under that name before: the call returns normally and
    a later registration of the same name replaces the earlier one.  The
    only error either method can return is the one the driver replied
    with. *)
Theorem expose_registers_and_overwrites
    (s : Ctx) (name : string) (first second : BindingSource -> list Value -> Value)
    (fn : list Value -> Value) (handle1 handle2 : option bool) (replied : Result unit) :
  let adapter := fun (source : BindingSource) (args : list Value) => fn args in
  let once := snd (exposeBinding name first handle1 (Ok tt) s) in
  (fst (exposeBinding name first handle1 (Ok tt) s) = Ok tt /\
   _bindings once = <[name := first]> (_bindings s) /\
   _bindings once !! name = Some first) /\
  (fst (exposeFunction name fn (Ok tt) s) = Ok tt /\
   _bindings (snd (exposeFunction name fn (Ok tt) s)) = <[name := adapter]> (_bindings s) /\
   _bindings (snd (exposeFunction name fn (Ok tt) s)) !! name = Some adapter) /\
  (fst (exposeBinding name second handle2 (Ok tt) once) = Ok tt /\
   _bindings (snd (exposeBinding name second handle2 (Ok tt) once)) !! name = Some second) /\
  (fst (exposeFunction name fn (Ok tt) once) = Ok tt /\
   _bindings (snd (exposeFunction name fn (Ok tt) once)) !! name = Some adapter) /\
  fst (exposeBinding name first handle1 replied s) =
    match replied with Ok _ => Ok tt | Throw e => Throw (apiError e) end /\
  fst (exposeFunction name fn replied s) =
    match replied with Ok _ => Ok tt | Throw e => Throw (apiError e) end.
Proof.
  intros adapter once. subst once.
  rewrite !exposeBinding_replied, !exposeFunction_replied. simpl.
  rewrite !lookup_insert_eq.
  repeat split; destruct replied; reflexivity.
Qed.

(** C9.  When the driver rejects the registration, [exposeBinding] and
    [exposeFunction] return that error and [_bindings] is as it was: the
    callback is stored only behind the awaited call. *)
Theorem failed_expose_leaves_registry_unchanged
    (s : Ctx) (name : string) (callback : BindingSource -> list Value -> Value)
    (fn : list Value -> Value) (handle_option : option bool) (e : Error) :
  (fst (exposeBinding name callback handle_option (Throw e) s) = Throw (apiError e) /\
   _bindings (snd (exposeBinding name callback handle_option (Throw e) s)) = _bindings s) /\
  (fst (exposeFunction name fn (Throw e) s) = Throw (apiError e) /\
   _bindings (snd (exposeFunction name fn (Throw e) s)) = _bindings s).
Proof.
  rewrite exposeBinding_replied, exposeFunction_replied. simpl. repeat split.
Qed.

(** *** Closing *)

Lemma alter_remove_lookup (m : gmap string (gset string)) (owner b this_guid : string)
    (contexts : gset string) :
  m !! b = Some contexts ->
  exists contexts',
    alter (fun c => c ∖ {[this_guid]}) owner m !! b = Some contexts' /\
    forall g, g ∈ contexts' <-> g ∈ contexts /\ ~ (owner = b /\ g = this_guid).
Proof.
  intros Hb. rewrite lookup_alter. destruct (decide (owner = b)) as [->|Hne].
  - rewrite Hb. simpl. eexists. split; [reflexivity|]. intros g.
    rewrite elem_of_difference, elem_of_singleton. tauto.
  - rewrite Hb. eexists. split; [reflexivity|]. intros g. tauto.
Qed.

Lemma _onClose_spec (s : Ctx) :
  exists s' : Ctx,
    _onClose s = (Ok tt, s') /\
    _closed s' = true /\
    Browser__contexts s' =
      match _browser s with
      | Some browser => alter (fun c => c ∖ {[this s]}) browser (Browser__contexts s)
      | None => Browser__contexts s
      end /\
    BrowserType__contexts s' =
      match _browserType s with
      | Some browserType =>
          alter (fun c => c ∖ {[this s]}) browserType (BrowserType__contexts s)
      | None => BrowserType__contexts s
      end /\
    trace s' = trace s ++ [Emitted (ContextScope (this s)) (BrowserContext_Close Events)
                             (PContext (this s))] /\
    waiters s' = map (Waiter.step (Waiter.Fired (ContextScope (this s))
                                     (BrowserContext_Close Events) (PContext (this s))))
                     (waiters s) /\
    _closedPromise s' = Some (default (PContext (this s)) (_closedPromise s)) /\
    this s' = this s.
Proof.
  destruct s as [g routes browser browserType bindings settings promise baseURL closed
                   browsers browserTypes ws tr rejections].
  unfold _onClose, emit, bind, modify, get.
  destruct browser as [browser|], browserType as [browserType|]; simpl.
  all: match goal with
       | |- context [emit_at ?sc ?ev ?p ?s0] =>
           destruct (emit_at_spec sc ev p s0)
             as (s' & Hrun & Ht & Hw & Hp & Hthis & _ & _ & Hc & Hb & Hbt & _)
       end.
  all: exists s'; split; [exact Hrun|].
  all: rewrite Hc, Hb, Hbt, Ht, Hw, Hp, Hthis; simpl.
  all: rewrite String.eqb_refl, String.eqb_refl; simpl.
  all: destruct promise; repeat split; reflexivity.
Qed.

(** C3.  The close handler sets [_closed], takes the context out of the
    [_contexts] set of its browser and of its browser type and out of no
    other set, and emits the close event on the context with the context as
    payload.  That emission resolves [_closedPromise] and is seen by every
    wait in flight: a pending wait with a branch that takes the event is
    settled by it. *)
Theorem close_event_disposes_unregisters_and_emits (s : Ctx) :
  let closing := Waiter.Fired (ContextScope (this s)) (BrowserContext_Close Events)
                   (PContext (this s)) in
  let s' := snd (_onClose s) in
  fst (_onClose s) = Ok tt /\
  _closed s' = true /\
  (forall (owner : guid) (contexts : gset string),
      Browser__contexts s !! owner = Some contexts ->
      exists contexts',
        Browser__contexts s' !! owner = Some contexts' /\
        forall g : guid,
          g ∈ contexts' <-> g ∈ contexts /\ ~ (_browser s = Some owner /\ g = this s)) /\
  (forall (owner : guid) (contexts : gset string),
      BrowserType__contexts s !! owner = Some contexts ->
      exists contexts',
        BrowserType__contexts s' !! owner = Some contexts' /\
        forall g : guid,
          g ∈ contexts' <-> g ∈ contexts /\ ~ (_browserType s = Some owner /\ g = this s)) /\
  trace s' = trace s ++ [Emitted (ContextScope (this s)) (BrowserContext_Close Events)
                           (PContext (this s))] /\
  _closedPromise s' = Some (default (PContext (this s)) (_closedPromise s)) /\
  waiters s' = map (Waiter.step closing) (waiters s) /\
  (forall (n : nat) (w : Waiter.t),
      waiters s !! n = Some w ->
      Waiter.outcome w = Waiter.Pending ->
      Waiter.first_fired (Waiter.branches w) closing <> None ->
      exists w', waiters s' !! n = Some w' /\ Waiter.outcome w' <> Waiter.Pending).
Proof.
  intros closing s'. subst s'.
  destruct (_onClose_spec s) as (s' & -> & Hc & Hb & Hbt & Ht & Hw & Hp & _). simpl.
  split; [reflexivity|]. split; [exact Hc|].
  split; [|split; [|split; [exact Ht|split; [exact Hp|split; [exact Hw|]]]]].
  - intros owner contexts Hlook. rewrite Hb.
    destruct (_browser s) as [browser|].
    + destruct (alter_remove_lookup _ browser owner (this s) contexts Hlook)
        as (contexts' & Hl & Hiff).
      exists contexts'. split; [exact Hl|]. intros g.
      rewrite Hiff. split; intros [Hg Hn]; (split; [exact Hg|]); intros [Ho Hg'].
      * apply Hn. split; [congruence | exact Hg'].
      * apply Hn. split; [congruence | exact Hg'].
    + exists contexts. split; [exact Hlook|]. intros g.
      split; [intros Hg; split; [exact Hg | intros [[=] _]] | intros [Hg _]; exact Hg].
  - intros owner contexts Hlook. rewrite Hbt.
    destruct (_browserType s) as [browserType|].
    + destruct (alter_remove_lookup _ browserType owner (this s) contexts Hlook)
        as (contexts' & Hl & Hiff).
      exists contexts'. split; [exact Hl|]. intros g.
      rewrite Hiff. split; intros [Hg Hn]; (split; [exact Hg|]); intros [Ho Hg'].
      * apply Hn. split; [congruence | exact Hg'].
      * apply Hn. split; [congruence | exact Hg'].
    + exists contexts. split; [exact Hlook|]. intros g.
      split; [intros Hg; split; [exact Hg | intros [[=] _]] | intros [Hg _]; exact Hg].
  - intros n w Hn Hpending Hfires. rewrite Hw.
    exists (Waiter.step closing w). split.
    + rewrite list_lookup_fmap, Hn. reflexivity.
    + destruct (Waiter.first_fired (Waiter.branches w) closing) as [r|] eqn:Hr;
        [|congruence].
      rewrite (step_fired closing w r Hpending Hr). simpl.
      eapply first_fired_settles, Hr.
Qed.

(** *** Waiting for an event *)

Lemma waitForEvent_spec (s : Ctx) (event : string) (optionsOrPredicate : WaitForEventOptions) :
  waitForEvent event optionsOrPredicate s =
    (Ok (length (waiters s)),
     set_waiters (waiters s ++ [waitForEvent_waiter event optionsOrPredicate s]) s).
Proof. reflexivity. Qed.

Lemma waitForEvent_waiter_pending (s : Ctx) (event : string)
    (optionsOrPredicate : WaitForEventOptions) :
  Waiter.outcome (waitForEvent_waiter event optionsOrPredicate s) = Waiter.Pending.
Proof.
  unfold waitForEvent_waiter.
  destruct (negb (String.eqb event (BrowserContext_Close Events))); reflexivity.
Qed.

(** The promise of a wait that was just begun, after the context closed. *)
Lemma promise_after_close (s : Ctx) (event : string)
    (optionsOrPredicate : WaitForEventOptions) (r : Waiter.Outcome) :
  Waiter.first_fired (Waiter.branches (waitForEvent_waiter event optionsOrPredicate s))
    (Waiter.Fired (ContextScope (this s)) (BrowserContext_Close Events) (PContext (this s)))
    = Some r ->
  waitForEvent_promise (length (waiters s))
    (snd (_onClose (snd (waitForEvent event optionsOrPredicate s)))) = Some (promised r).
Proof.
  intros Hr. rewrite waitForEvent_spec. cbn [snd].
  destruct (_onClose_spec
              (set_waiters (waiters s ++ [waitForEvent_waiter event optionsOrPredicate s]) s))
    as (s' & -> & _ & _ & _ & _ & Hw & _).
  cbn [snd]. unfold waitForEvent_promise. rewrite Hw. simpl.
  rewrite list_lookup_fmap, lookup_app_r, Nat.sub_diag by lia. simpl.
  rewrite (step_fired _ _ r (waitForEvent_waiter_pending s event optionsOrPredicate) Hr).
  reflexivity.
Qed.

Lemma waiter_branches_other (s : Ctx) (event : string)
    (optionsOrPredicate : WaitForEventOptions) :
  event <> BrowserContext_Close Events ->
  Waiter.branches (waitForEvent_waiter event optionsOrPredicate s) =
    [Waiter.RejectOnTimeout (_timeoutSettings s (options_timeout optionsOrPredicate))
       ("Timeout while waiting for event " ++ dquote ++ event ++ dquote)%string;
     Waiter.RejectOnEvent (ContextScope (this s)) (BrowserContext_Close Events)
       (new_Error "Context closed");
     Waiter.ResolveOn (ContextScope (this s)) event (options_predicate optionsOrPredicate)].
Proof.
  intros Hne. apply String.eqb_neq in Hne.
  unfold waitForEvent_waiter. rewrite Hne. reflexivity.
Qed.

Lemma waiter_branches_close (s : Ctx) (optionsOrPredicate : WaitForEventOptions) :
  Waiter.branches (waitForEvent_waiter (BrowserContext_Close Events) optionsOrPredicate s) =
    [Waiter.RejectOnTimeout (_timeoutSettings s (options_timeout optionsOrPredicate))
       ("Timeout while waiting for event " ++ dquote ++ BrowserContext_Close Events
          ++ dquote)%string;
     Waiter.ResolveOn (ContextScope (this s)) (BrowserContext_Close Events)
       (options_predicate optionsOrPredicate)].
Proof.
  unfold waitForEvent_waiter. rewrite String.eqb_refl. reflexivity.
Qed.

(** C2.  For an event other than the close event, the waiter that
    [waitForEvent] builds has a branch that rejects with [Context closed]
    on the close event of the context.  If the wait is still pending when
    the close event fires, it is rejected with that error; in particular, a
    call to [waitForEvent] followed by the close handler leaves the
    returned promise rejected with it (as [_wrapApiCall] rethrows it), not
    pending. *)
Theorem wait_for_other_event_is_rejected_on_close
    (s : Ctx) (event : string) (optionsOrPredicate : WaitForEventOptions) :
  event <> BrowserContext_Close Events ->
  let waiter := waitForEvent_waiter event optionsOrPredicate s in
  let context_closed := new_Error "Context closed" in
  let promise := length (waiters s) in
  In (Waiter.RejectOnEvent (ContextScope (this s)) (BrowserContext_Close Events)
        context_closed) (Waiter.branches waiter) /\
  (forall (earlier : list Waiter.Occurrence) (payload : Payload),
      Waiter.outcome (Waiter.run waiter earlier) = Waiter.Pending ->
      Waiter.outcome
        (Waiter.run waiter
           (earlier ++ [Waiter.Fired (ContextScope (this s)) (BrowserContext_Close Events)
                          payload])) = Waiter.Rejected context_closed) /\
  fst (waitForEvent event optionsOrPredicate s) = Ok promise /\
  waitForEvent_promise promise (snd (waitForEvent event optionsOrPredicate s)) =
    Some Waiter.Pending /\
  waitForEvent_promise promise
    (snd (_onClose (snd (waitForEvent event optionsOrPredicate s)))) =
    Some (Waiter.Rejected (apiError context_closed)).
Proof.
  intros Hne waiter context_closed promise.
  assert (Hfired : forall payload,
             Waiter.first_fired (Waiter.branches waiter)
               (Waiter.Fired (ContextScope (this s)) (BrowserContext_Close Events) payload)
             = Some (Waiter.Rejected context_closed)).
  { intros payload. unfold waiter. rewrite (waiter_branches_other s event _ Hne).
    simpl. rewrite !String.eqb_refl. reflexivity. }
  split; [|split; [|split; [|split]]].
  - unfold waiter. rewrite (waiter_branches_other s event _ Hne).
    right; left; reflexivity.
  - intros earlier payload Hpending.
    apply run_then_fired; [apply waitForEvent_waiter_pending | exact Hpending | apply Hfired].
  - reflexivity.
  - rewrite waitForEvent_spec. cbn [snd]. unfold waitForEvent_promise, promise.
    pose proof (waitForEvent_waiter_pending s event optionsOrPredicate) as Hpending.
    fold waiter in Hpending |- *. clearbody waiter. simpl.
    rewrite lookup_app_r, Nat.sub_diag by lia. simpl.
    rewrite Hpending. reflexivity.
  - apply (promise_after_close s event optionsOrPredicate _ (Hfired _)).
Qed.

(** C10.  For the close event itself, the waiter that [waitForEvent] builds
    has the timeout branch and the subscription to the close event, and no
    close guard.  It is never rejected with [Context closed]; any rejection
    is the timeout error.  If the wait is still pending when the close
    event fires with a payload its predicate accepts, it resolves with that
    payload; in particular, a call to [waitForEvent] followed by the close
    handler leaves the returned promise resolved with the context. *)
Theorem wait_for_close_event_resolves_on_close
    (s : Ctx) (optionsOrPredicate : WaitForEventOptions) :
  let close := BrowserContext_Close Events in
  let waiter := waitForEvent_waiter close optionsOrPredicate s in
  let predicate := options_predicate optionsOrPredicate in
  let timed_out := new_TimeoutError
                     ("Timeout while waiting for event " ++ dquote ++ close ++ dquote)%string in
  let promise := length (waiters s) in
  Waiter.branches waiter =
    [Waiter.RejectOnTimeout (_timeoutSettings s (options_timeout optionsOrPredicate))
       (err_message timed_out);
     Waiter.ResolveOn (ContextScope (this s)) close predicate] /\
  (forall (os : list Waiter.Occurrence),
      Waiter.outcome (Waiter.run waiter os) <> Waiter.Rejected (new_Error "Context closed")) /\
  (forall (os : list Waiter.Occurrence) (e : Error),
      Waiter.outcome (Waiter.run waiter os) = Waiter.Rejected e -> e = timed_out) /\
  (forall (earlier : list Waiter.Occurrence) (payload : Payload),
      Waiter.outcome (Waiter.run waiter earlier) = Waiter.Pending ->
      Waiter.accepts predicate payload = true ->
      Waiter.outcome
        (Waiter.run waiter (earlier ++ [Waiter.Fired (ContextScope (this s)) close payload]))
      = Waiter.Resolved payload) /\
  (Waiter.accepts predicate (PContext (this s)) = true ->
   waitForEvent_promise promise
     (snd (_onClose (snd (waitForEvent close optionsOrPredicate s)))) =
     Some (Waiter.Resolved (PContext (this s)))).
Proof.
  intros close waiter predicate timed_out promise.
  pose proof (waiter_branches_close s optionsOrPredicate) as Hbranches.
  fold close waiter predicate in Hbranches.
  assert (Hfired : forall payload,
             Waiter.accepts predicate payload = true ->
             Waiter.first_fired (Waiter.branches waiter)
               (Waiter.Fired (ContextScope (this s)) close payload)
             = Some (Waiter.Resolved payload)).
  { intros payload Hacc. rewrite Hbranches. simpl.
    rewrite !String.eqb_refl, Hacc. reflexivity. }
  assert (Hrejected : forall os e,
             Waiter.outcome (Waiter.run waiter os) = Waiter.Rejected e -> e = timed_out).
  { intros os e Hrun.
    destruct (run_outcome os waiter (Waiter.Rejected e)
                (waitForEvent_waiter_pending s close optionsOrPredicate) Hrun)
      as (o & _ & Hf); [discriminate|].
    rewrite Hbranches in Hf.
    destruct o as [em ev p|ms]; cbn [Waiter.first_fired Waiter.fires] in Hf.
    - destruct (Scope_eqb (ContextScope (this s)) em && String.eqb close ev
                && Waiter.accepts predicate p); discriminate.
    - destruct (_timeoutSettings s (options_timeout optionsOrPredicate) <=? ms)%Z;
        [|discriminate].
      injection Hf as <-. reflexivity. }
  split; [exact Hbranches|]. split; [|split; [exact Hrejected|split]].
  - intros os Hrun. apply Hrejected in Hrun. discriminate.
  - intros earlier payload Hpending Hacc.
    apply run_then_fired;
      [apply waitForEvent_waiter_pending | exact Hpending | apply Hfired, Hacc].
  - intros Hacc.
    apply (promise_after_close s close optionsOrPredicate _ (Hfired _ Hacc)).
Qed.

End BrowserContextProperties.

(** ** The stream reader *)

Section StreamProperties.

Context {buffers : BufferAPI}.
Import StreamImpl.

Lemma pulls_after_end (requests : list (Z * Result StreamReadResult)) (s : State) :
  ended s = true -> pulls requests s = (Ok tt, s).
Proof.
  intros Hended. induction requests as [|[size replied] rest IH]; simpl; [reflexivity|].
  unfold pull. rewrite Hended. simpl. exact IH.
Qed.

(** C4.  On a reader that has not ended, a pull puts exactly one [read]
    request for the asked size on the channel.  An answer with non-empty
    base64 text hands the decoded chunk to the consumer and leaves the
    sequence open.  An answer without text, absent or empty, ends the
    sequence without handing anything over, and from then on no pull sends
    a request or yields a chunk. *)
Theorem pull_reads_once_and_stops_at_end
    (s : State) (size : Z) (c : ascii) (rest : string)
    (later : list (Z * Result StreamReadResult)) :
  ended s = false ->
  destroyed s = false ->
  let text := String c rest in
  (forall replied : Result StreamReadResult,
      sent (snd (pull size replied s)) = sent s ++ [Read size]) /\
  (fst (pull size (Ok (mkStreamReadResult (Some text))) s) = Ok tt /\
   consumed (snd (pull size (Ok (mkStreamReadResult (Some text))) s)) =
     consumed s ++ [Buffer_from_base64 text] /\
   ended (snd (pull size (Ok (mkStreamReadResult (Some text))) s)) = false) /\
  (forall result : StreamReadResult,
      binary result = None \/ binary result = Some "" ->
      let s' := snd (pull size (Ok result) s) in
      fst (pull size (Ok result) s) = Ok tt /\
      ended s' = true /\
      consumed s' = consumed s /\
      sent s' = sent s ++ [Read size] /\
      pulls later s' = (Ok tt, s')).
Proof.
  intros Hended Hdestroyed text. unfold pull. rewrite Hended, Hdestroyed. simpl.
  split; [|split].
  - intros [result|e]; unfold _read; simpl; [|reflexivity].
    destruct (truthy (binary result)); reflexivity.
  - unfold _read. simpl. rewrite Hended. repeat split.
  - intros [text'] Hempty. simpl in Hempty.
    assert (Hfalsy : truthy text' = None)
      by (destruct Hempty as [-> | ->]; reflexivity).
    unfold _read. simpl. rewrite Hfalsy. simpl.
    repeat split. apply pulls_after_end. reflexivity.
Qed.

(** C5.  [_destroy] puts a [close] message on the channel in every state,
    ended or not.  What that call settles to makes no difference: the
    callback receives the error [_destroy] was given and nothing else, and
    no rejection is left unhandled.  Destroying again is harmless: through
    [destroy] the second call does nothing at all, and a second [_destroy]
    again only sends [close] and calls back. *)
Theorem destroy_always_closes_and_can_be_repeated
    (s : State) (error error' : option Error) (closed closed' : Result unit) :
  let once := snd (destroy error closed s) in
  let again := snd (_destroy error' closed' (snd (_destroy error closed s))) in
  (sent (snd (_destroy error closed s)) = sent s ++ [Close] /\
   ended (snd (_destroy error closed s)) = ended s) /\
  (_destroy error closed s = _destroy error closed' s /\
   fst (_destroy error closed s) = error /\
   unhandledRejections (snd (_destroy error closed s)) = unhandledRejections s) /\
  (destroyed once = true /\
   sent once = (if destroyed s then sent s else sent s ++ [Close]) /\
   destroy error' closed' once = (None, once)) /\
  (fst (_destroy error' closed' (snd (_destroy error closed s))) = error' /\
   sent again = sent s ++ [Close; Close] /\
   unhandledRejections again = unhandledRejections s).
Proof.
  intros once again. subst once again.
  unfold destroy, _destroy, super__destroy, detach, send. simpl.
  destruct closed, closed'; simpl; rewrite ?app_nil_r, <- ?app_assoc; simpl.
  all: destruct (destroyed s) eqn:Hd; simpl; rewrite ?Hd, ?app_nil_r; simpl.
  all: repeat split; reflexivity.
Qed.

End StreamProperties.

(** ** The properties on the sample collaborators *)

(** Route precedence: with A registered before B and both matching every
    url, a route event is handled by B, and A is not asked. *)
Lemma route_event_goes_to_first_matching_handler_witness :
  BrowserContext._routes sample_two_routes =
    [mkSampleRouteHandler None (GlobMatch "*") 2 None 0;
     mkSampleRouteHandler None (GlobMatch "*") 1 None 0] /\
  BrowserContext.trace
    (snd (@BrowserContext._onRoute _ sample_RouteHandlerAPI sample_route sample_request
            (Throw (new_Error "closed")) sample_two_routes)) =
    BrowserContext.trace sample_two_routes ++
    [BrowserContext.Matched (mkSampleRouteHandler None (GlobMatch "*") 2 None 0)
       "https://example.com/" true;
     BrowserContext.Handled (mkSampleRouteHandler None (GlobMatch "*") 2 None 0)
       sample_route sample_request] /\
  BrowserContext.trace
    (snd (@BrowserContext._onRoute _ sample_RouteHandlerAPI sample_route sample_request
            (Throw (new_Error "closed")) sample_context)) =
    [BrowserContext.Continued sample_route].
Proof.
  split; [reflexivity|].
  destruct (@route_event_goes_to_first_matching_handler _ sample_RouteHandlerAPI
              sample_ClientEnv sample_two_routes sample_route sample_request
              (Throw (new_Error "closed"))) as (_ & Hhit & _).
  destruct (@route_event_goes_to_first_matching_handler _ sample_RouteHandlerAPI
              sample_ClientEnv sample_context sample_route sample_request
              (Throw (new_Error "closed"))) as (_ & _ & Hmiss).
  split.
  - exact (proj1 (proj2 (Hhit [] [mkSampleRouteHandler None (GlobMatch "*") 1 None 0]
                           (mkSampleRouteHandler None (GlobMatch "*") 2 None 0)
                           eq_refl (List.Forall_nil _) eq_refl))).
  - exact (proj1 (proj2 (Hmiss (List.Forall_nil _)))).
Defined.

(** A binding call for [foo] on a context without bindings. *)
Lemma binding_call_without_callback_is_dropped_witness :
  BrowserContext._bindings sample_context !! "foo" = None /\
  BrowserContext._onBinding (mkBindingCall "bindingCall@1" "foo" [VNum 1; VNum 2])
    sample_context = (Ok tt, sample_context).
Proof.
  split; [reflexivity|].
  apply (@binding_call_without_callback_is_dropped _ sample_context
           (mkBindingCall "bindingCall@1" "foo" [VNum 1; VNum 2])).
  reflexivity.
Defined.

(** Waiting for [page] on the sample context, which then closes: the promise
    is rejected with the error as [_wrapApiCall] rethrows it. *)
Lemma wait_for_other_event_is_rejected_on_close_witness :
  "page" <> BrowserContext_Close (@Events sample_ClientEnv) /\
  @BrowserContext.waitForEvent_promise _ sample_ClientEnv 0
    (snd (@BrowserContext._onClose _ sample_ClientEnv sample_waiting)) =
    Some (Waiter.Rejected (mkError PlainError "browserContext: Context closed")).
Proof.
  assert (Hne : "page" <> BrowserContext_Close (@Events sample_ClientEnv))
    by discriminate.
  split; [exact Hne|].
  exact (proj2 (proj2 (proj2 (proj2
           (@wait_for_other_event_is_rejected_on_close _
              sample_ClientEnv sample_context "page" (AsOptions None None) Hne))))).
Defined.

(** Waiting for [close] on the sample context, which then closes: the promise
    resolves with the context. *)
Lemma wait_for_close_event_resolves_on_close_witness :
  Waiter.accepts (BrowserContext.options_predicate (AsOptions None None))
    (PContext "context@1") = true /\
  @BrowserContext.waitForEvent_promise _ sample_ClientEnv 0
    (snd (@BrowserContext._onClose _ sample_ClientEnv
            (snd (@BrowserContext.waitForEvent _ sample_ClientEnv "close"
                    (AsOptions None None) sample_context)))) =
    Some (Waiter.Resolved (PContext "context@1")).
Proof.
  split; [reflexivity|].
  exact (proj2 (proj2 (proj2 (proj2
           (@wait_for_close_event_resolves_on_close _
              sample_ClientEnv sample_context (AsOptions None None))))) eq_refl).
Defined.

(** Closing the sample context while a wait for [page] is in flight: the
    browser keeps the other context only, and the wait is settled. *)
Lemma close_event_disposes_unregisters_and_emits_witness :
  (exists contexts',
      BrowserContext.Browser__contexts
        (snd (@BrowserContext._onClose _ sample_ClientEnv sample_waiting)) !! "browser@1"
        = Some contexts' /\
      ("context@1" ∉ contexts') /\ ("context@2" ∈ contexts')) /\
  (exists w',
      BrowserContext.waiters
        (snd (@BrowserContext._onClose _ sample_ClientEnv sample_waiting)) !! 0%nat = Some w' /\
      Waiter.outcome w' <> Waiter.Pending).
Proof.
  destruct (@close_event_disposes_unregisters_and_emits _
              sample_ClientEnv sample_waiting) as (_ & _ & Hb & _ & _ & _ & _ & Hw).
  split.
  - destruct (Hb "browser@1" {[ "context@1"; "context@2" ]} eq_refl)
      as (contexts' & Hl & Hiff).
    exists contexts'. split; [exact Hl|]. split.
    + intros Hin. apply Hiff in Hin. destruct Hin as [_ Hn]. apply Hn.
      split; reflexivity.
    + apply Hiff. split; [set_solver|]. intros [_ Hg]. discriminate Hg.
  - apply (Hw 0%nat
             (@BrowserContext.waitForEvent_waiter _ sample_ClientEnv "page"
                (AsOptions None None) sample_context));
      [reflexivity | reflexivity | discriminate].
Defined.

(** A first pull on a fresh reader answered with the base64 text of [abc],
    and an answer without data after it. *)
Lemma pull_reads_once_and_stops_at_end_witness :
  @StreamImpl.ended StreamImpl.initial = false /\
  @StreamImpl.destroyed StreamImpl.initial = false /\
  StreamImpl.consumed
    (snd (@StreamImpl.pull sample_BufferAPI 3 (Ok (mkStreamReadResult (Some "YWJj")))
            StreamImpl.initial)) = [] ++ [@Buffer_from_base64 sample_BufferAPI "YWJj"] /\
  StreamImpl.sent
    (snd (@StreamImpl.pulls sample_BufferAPI
            [(5%Z, Ok (mkStreamReadResult (Some "ZGVm")))]
            (snd (@StreamImpl.pull sample_BufferAPI 3 (Ok (mkStreamReadResult (Some "")))
                    StreamImpl.initial)))) = [] ++ [Read 3].
Proof.
  split; [reflexivity|]. split; [reflexivity|].
  destruct (@pull_reads_once_and_stops_at_end sample_BufferAPI StreamImpl.initial 3
              "Y"%char "WJj" [(5%Z, Ok (mkStreamReadResult (Some "ZGVm")))]
              eq_refl eq_refl) as (_ & (_ & Hdata & _) & Hend).
  split; [exact Hdata|].
  destruct (Hend (mkStreamReadResult (Some "")) (or_intror eq_refl))
    as (_ & _ & _ & Hsent & Hlater).
  rewrite Hlater. exact Hsent.
Defined.

(** The driver has [abc], then [def], then nothing: three pulls yield the
    two chunks and the end of the sequence, and the fourth pull sends no
    request. *)
Example stream_exhaustion :
  @StreamImpl.pulls sample_BufferAPI
    [(3%Z, Ok (mkStreamReadResult (Some "YWJj")));
     (3%Z, Ok (mkStreamReadResult (Some "ZGVm")));
     (3%Z, Ok (mkStreamReadResult (Some "")));
     (3%Z, Ok (mkStreamReadResult (Some "Z2hp")))]
    StreamImpl.initial =
  (Ok tt, StreamImpl.mkState true false [bytes_of "abc"; bytes_of "def"]
            [Read 3; Read 3; Read 3] []).
Proof. vm_compute. reflexivity. Qed.

(** Destroying an ended reader whose channel is gone: [close] goes out, the
    failure is swallowed, and a second [destroy] changes nothing. *)
Example destroy_after_end :
  let ended := StreamImpl.mkState true false [bytes_of "abc"] [Read 3; Read 3] [] in
  let gone := Throw (new_Error "Target closed") in
  StreamImpl.destroy None gone ended =
    (None, StreamImpl.mkState true true [bytes_of "abc"] [Read 3; Read 3; Close] []) /\
  StreamImpl.destroy None gone (snd (StreamImpl.destroy None gone ended)) =
    (None, snd (StreamImpl.destroy None gone ended)).
Proof. split; reflexivity. Qed.

(** A request that names a page is emitted on the context and on the page; a
    request that names none, on the context only. *)
Example request_with_and_without_page :
  BrowserContext.trace
    (snd (@BrowserContext._onRequest _ sample_ClientEnv sample_request (Some "page@1")
            sample_context)) =
    [BrowserContext.Emitted (ContextScope "context@1") "request" (PRequest sample_request);
     BrowserContext.Emitted (PageScope "page@1") "request" (PRequest sample_request)] /\
  BrowserContext.trace
    (snd (@BrowserContext._onRequest _ sample_ClientEnv sample_request None sample_context)) =
    [BrowserContext.Emitted (ContextScope "context@1") "request" (PRequest sample_request)].
Proof. split; reflexivity. Qed.

(** [exposeBinding("foo", cb)] and then a binding call for [foo] with the
    arguments 1 and 2: [cb] is called once, with that call. *)
Example binding_round_trip :
  let cb := fun (source : BindingSource) (args : list Value) => VNum 3 in
  let call := mkBindingCall "bindingCall@1" "foo" [VNum 1; VNum 2] in
  BrowserContext.trace
    (snd (BrowserContext._onBinding call
            (snd (@BrowserContext.exposeBinding _ sample_ClientEnv "foo" cb None (Ok tt)
                    sample_context)))) =
    [BrowserContext.Sent (ExposeBinding "foo" None); BrowserContext.Called call cb].
Proof. reflexivity. Qed.


(** * Further properties *)

(** ** Routes *)

Section RouteProperties.

Context {RH : Type} {handlers : RouteHandlerAPI RH} {fields : RouteHandlerFields RH}
  {env : ClientEnv}.
Import BrowserContext BrowserContextRoutes.

Local Abbreviation Ctx := (@State RH).

Lemma for_routeHandler_answers_once (routes : list RH) (intercepted : Route)
    (request : Request) :
  let '(acts, found) := for_routeHandler routes intercepted request in
  length (List.filter answers acts) =
    match found with Some _ => 1%nat | None => 0%nat end /\
  List.filter is_sent acts = [] /\
  (forall routes', found = Some routes' -> length routes' = length routes).
Proof.
  induction routes as [|h rest IH]; simpl.
  - repeat split. discriminate.
  - destruct (matches h (req_url request)); simpl.
    + repeat split. intros routes' [= <-]. reflexivity.
    + destruct (for_routeHandler rest intercepted request) as [acts found].
      destruct IH as (Hone & Hsent & Hlen). simpl.
      split; [destruct found; exact Hone|]. split; [exact Hsent|].
      intros routes' Hfound. destruct found as [kept|]; [|discriminate].
      injection Hfound as <-. simpl. f_equal. apply Hlen. reflexivity.
Qed.

(** X1.  Every route event is answered exactly once: the entries that
    [_onRoute] adds to the trace contain exactly one answer, a handler told
    to handle the route or the route continued, and no message on the
    context's channel.  The handler returns normally, the number of
    registered handlers is unchanged and no rejection is left unhandled,
    whatever the handlers are and whatever the continuation settles to. *)
Theorem route_event_is_answered_exactly_once
    (s : Ctx) (intercepted : Route) (request : Request) (continued : Result unit) :
  exists acts : list Action,
    trace (snd (_onRoute intercepted request continued s)) = trace s ++ acts /\
    length (List.filter answers acts) = 1%nat /\
    List.filter is_sent acts = [] /\
    fst (_onRoute intercepted request continued s) = Ok tt /\
    length (_routes (snd (_onRoute intercepted request continued s))) = length (_routes s) /\
    unhandledRejections (snd (_onRoute intercepted request continued s)) =
      unhandledRejections s.
Proof.
  unfold _onRoute, bind, get.
  pose proof (for_routeHandler_answers_once (_routes s) intercepted request) as Hloop.
  destruct (for_routeHandler (_routes s) intercepted request) as [acts [routes'|]].
  - destruct Hloop as (Hone & Hsent & Hlen).
    exists acts. simpl. repeat split; try assumption. apply Hlen. reflexivity.
  - destruct Hloop as (Hnone & Hsent & _).
    exists (acts ++ [Continued intercepted]). simpl.
    rewrite <- app_assoc, !List.filter_app, Hsent, length_app, Hnone.
    destruct continued; simpl; rewrite ?app_nil_r; repeat split.
Qed.

(** X2.  [route()] asks the driver to enable interception exactly when the
    handler it registers is the first one.  The handler is registered before
    the call is awaited: when the call fails, [route()] returns the error and
    the handler is registered all the same; with other handlers present no
    call is made and [route()] returns normally. *)
Theorem route_enables_interception_with_first_handler
    (s : Ctx) (pattern : URLMatch) (handler : RouteHandlerCallback) (times : option Z)
    (replied : Result unit) :
  let s' := snd (route pattern handler times replied s) in
  _routes s' = new_RouteHandler (_options_baseURL s) pattern handler times :: _routes s /\
  trace s' = trace s ++ match _routes s with
                        | [] => [Sent (SetNetworkInterceptionEnabled true)]
                        | _ :: _ => []
                        end /\
  fst (route pattern handler times replied s) =
    match _routes s, replied with
    | [], Throw e => Throw (apiError e)
    | _, _ => Ok tt
    end.
Proof.
  intros s'. subst s'.
  unfold route, _wrapApiCall, bind, modify, get, when, channel_call, log, bind, ret.
  simpl. destruct (_routes s) as [|h rest]; simpl.
  - destruct replied as [[]|e]; repeat split.
  - rewrite app_nil_r. repeat split.
Qed.

(** X3.  A handler that was just registered and matches the url of the
    request gets the next route event, and no handler registered before it is
    asked. *)
Theorem newest_matching_route_handles_the_event
    (s : Ctx) (pattern : URLMatch) (handler : RouteHandlerCallback) (times : option Z)
    (replied continued : Result unit) (intercepted : Route) (request : Request) :
  let added := new_RouteHandler (_options_baseURL s) pattern handler times in
  let s1 := snd (route pattern handler times replied s) in
  matches added (req_url request) = true ->
  trace (snd (_onRoute intercepted request continued s1)) =
    trace s1 ++ [Matched added (req_url request) true; Handled added intercepted request] /\
  _routes (snd (_onRoute intercepted request continued s1)) =
    handle added intercepted request :: _routes s.
Proof.
  intros added s1 Hmatch.
  assert (Hroutes : _routes s1 = added :: _routes s).
  { unfold s1, route, _wrapApiCall, bind, modify, get, when, channel_call, log, bind, ret.
    simpl. destruct (length (_routes s)); simpl; [destruct replied|]; reflexivity. }
  unfold _onRoute, bind, get. rewrite Hroutes.
  cbn [for_routeHandler]. rewrite Hmatch. simpl. split; reflexivity.
Qed.

Lemma filter_sublist {A : Type} (f : A -> bool) (l : list A) :
  sublist (List.filter f l) l.
Proof.
  induction l as [|a l IH]; simpl; [constructor|].
  destruct (f a); [apply sublist_skip | apply sublist_cons]; exact IH.
Qed.

Lemma unroute_spec (s : Ctx) (url : URLMatch) (handler : option RouteHandlerCallback)
    (replied : Result unit) :
  let kept := List.filter (stays url handler) (_routes s) in
  unroute url handler replied s =
    match kept, replied with
    | [], Ok _ => (Ok tt, set_trace (trace s ++ [Sent (SetNetworkInterceptionEnabled false)])
                            (set_routes kept s))
    | [], Throw e => (Throw (apiError e),
                      set_trace (trace s ++ [Sent (SetNetworkInterceptionEnabled false)])
                        (set_routes kept s))
    | _ :: _, _ => (Ok tt, set_routes kept s)
    end.
Proof.
  intros kept. unfold unroute, _wrapApiCall, bind, modify, get, when, channel_call, log,
    bind, ret. simpl. fold kept.
  destruct kept as [|h rest]; simpl; [destruct replied as [[]|e]|]; reflexivity.
Qed.

Lemma unroute_routes (s : Ctx) (url : URLMatch) (handler : option RouteHandlerCallback)
    (replied : Result unit) :
  _routes (snd (unroute url handler replied s)) =
    List.filter (stays url handler) (_routes s).
Proof.
  rewrite unroute_spec.
  destruct (List.filter (stays url handler) (_routes s)) as [|h rest] eqn:Hf;
    [destruct replied|]; simpl; rewrite ?Hf; reflexivity.
Qed.

Lemma stays_In (routes : list RH) (url : URLMatch) (handler : option RouteHandlerCallback)
    (r : RH) :
  In r (List.filter (stays url handler) routes) <->
  In r routes /\
  ~ (strictly_equal (RouteHandler_url r) url = true /\
     forall h, handler = Some h -> RouteHandler_handler r = h).
Proof.
  rewrite filter_In. unfold stays.
  split; intros [Hin Hstay]; (split; [exact Hin|]).
  - intros [Heq Hh]. rewrite Heq in Hstay. simpl in Hstay.
    destruct handler as [h|]; [|discriminate].
    rewrite (Hh h eq_refl), Nat.eqb_refl in Hstay. discriminate.
  - destruct (strictly_equal (RouteHandler_url r) url); [|reflexivity]. simpl.
    destruct handler as [h|].
    + destruct (Nat.eqb_spec (RouteHandler_handler r) h) as [Hsame|]; [|reflexivity].
      exfalso. apply Hstay. split; [reflexivity|]. intros h' [= <-]. exact Hsame.
    + exfalso. apply Hstay. split; [reflexivity|]. intros h' [=].
Qed.

(** X4.  [unroute(url, handler)] removes exactly the handlers whose url is
    strictly equal to the given one and, when a handler is given, whose
    callback is the given one; the others stay, in their order.  The driver
    is asked to disable interception exactly when no handler is left, also
    when there was none to begin with, and [unroute] can only fail with the
    error of that call. *)
Theorem unroute_removes_the_given_handlers_only
    (s : Ctx) (url : URLMatch) (handler : option RouteHandlerCallback)
    (replied : Result unit) :
  let s' := snd (unroute url handler replied s) in
  sublist (_routes s') (_routes s) /\
  (forall r : RH,
      In r (_routes s') <->
      In r (_routes s) /\
      ~ (strictly_equal (RouteHandler_url r) url = true /\
         forall h, handler = Some h -> RouteHandler_handler r = h)) /\
  trace s' = trace s ++ match _routes s' with
                        | [] => [Sent (SetNetworkInterceptionEnabled false)]
                        | _ :: _ => []
                        end /\
  fst (unroute url handler replied s) =
    match _routes s', replied with
    | [], Throw e => Throw (apiError e)
    | _, _ => Ok tt
    end.
Proof.
  intros s'. subst s'.
  pose proof (unroute_routes s url handler replied) as Hroutes.
  rewrite unroute_spec in *.
  pose proof (filter_sublist (stays url handler) (_routes s)) as Hsub.
  pose proof (stays_In (_routes s) url handler) as Hkept.
  destruct (List.filter (stays url handler) (_routes s)) as [|h rest] eqn:Hf.
  - destruct replied as [[]|e]; simpl;
      (split; [exact Hsub|]); (split; [exact Hkept|]); split; reflexivity.
  - simpl. rewrite app_nil_r.
    split; [exact Hsub|]. split; [exact Hkept|]. split; reflexivity.
Qed.

Lemma for_routeHandler_handles_member (routes : list RH) (intercepted : Route)
    (request : Request) (a : Action) :
  In a (fst (for_routeHandler routes intercepted request)) ->
  answers a = true ->
  exists h, a = Handled h intercepted request /\ In h routes /\
            matches h (req_url request) = true.
Proof.
  induction routes as [|r rest IH]; simpl; [intros []|].
  destruct (matches r (req_url request)) eqn:Hr; simpl.
  - intros [<-|[<-|[]]] Hans; [discriminate|].
    exists r. split; [reflexivity|]. split; [left; reflexivity | exact Hr].
  - destruct (for_routeHandler rest intercepted request) as [acts found]. simpl in *.
    intros [<-|Hin] Hans; [discriminate|].
    destruct (IH Hin Hans) as (h & Ha & Hh & Hm).
    exists h. split; [exact Ha|]. split; [right; exact Hh | exact Hm].
Qed.

(** X5.  After [unroute(url, handler)], the next route event is never handled
    by a handler that [unroute] was to remove: whatever handler is told to
    handle the route was registered before, matches the request, and either
    has a url that is not strictly equal to the given one or, when a
    callback was given, has another callback. *)
Theorem removed_route_handler_is_not_invoked
    (s : Ctx) (url : URLMatch) (handler : option RouteHandlerCallback)
    (replied continued : Result unit) (intercepted : Route) (request : Request) :
  let s1 := snd (unroute url handler replied s) in
  exists acts : list Action,
    trace (snd (_onRoute intercepted request continued s1)) = trace s1 ++ acts /\
    forall (h : RH) (r : Route) (q : Request),
      In (Handled h r q) acts ->
      In h (_routes s) /\
      matches h (req_url request) = true /\
      ~ (strictly_equal (RouteHandler_url h) url = true /\
         forall c, handler = Some c -> RouteHandler_handler h = c).
Proof.
  intros s1.
  assert (Hkept : forall r : RH,
             In r (_routes s1) ->
             In r (_routes s) /\
             ~ (strictly_equal (RouteHandler_url r) url = true /\
                forall c, handler = Some c -> RouteHandler_handler r = c)).
  { intros r. unfold s1. rewrite unroute_routes. apply stays_In. }
  unfold _onRoute, bind, get.
  pose proof (for_routeHandler_handles_member (_routes s1) intercepted request) as Hmem.
  destruct (for_routeHandler (_routes s1) intercepted request) as [acts [routes'|]];
    simpl in *.
  - exists acts. split; [reflexivity|]. intros h r q Hin.
    destruct (Hmem _ Hin eq_refl) as (h' & [= -> _ _] & Hh & Hm).
    apply Hkept in Hh. destruct Hh as [Hold Hnot]. repeat split; assumption.
  - exists (acts ++ [Continued intercepted]). rewrite <- app_assoc.
    destruct continued; simpl; rewrite ?app_nil_r; (split; [reflexivity|]).
    all: intros h r q Hin; apply in_app_or in Hin; destruct Hin as [Hin|[Hc|[]]];
      [|discriminate].
    all: destruct (Hmem _ Hin eq_refl) as (h' & [= -> _ _] & Hh & Hm).
    all: apply Hkept in Hh; destruct Hh as [Hold Hnot]; repeat split; assumption.
Qed.

(** X6.  Registering a handler and unrouting it again with the same url and
    callback leaves the handler list as it was, provided the handler object
    carries the url and callback it was constructed with, the url is
    strictly equal to itself, and no handler registered before has that url
    and callback.  Starting without handlers, the driver is asked to enable
    and then to disable interception. *)
Theorem route_then_unroute_restores_the_handlers
    (s : Ctx) (pattern : URLMatch) (handler : RouteHandlerCallback) (times : option Z)
    (replied replied' : Result unit) :
  let added := new_RouteHandler (_options_baseURL s) pattern handler times in
  let s2 := snd (unroute pattern (Some handler) replied'
                   (snd (route pattern handler times replied s))) in
  RouteHandler_url added = pattern ->
  RouteHandler_handler added = handler ->
  strictly_equal pattern pattern = true ->
  Forall (fun r => stays pattern (Some handler) r = true) (_routes s) ->
  _routes s2 = _routes s /\
  (_routes s = [] ->
   trace s2 = trace s ++ [Sent (SetNetworkInterceptionEnabled true);
                          Sent (SetNetworkInterceptionEnabled false)]).
Proof.
  intros added s2 Hurl Hhandler Hsame Hold.
  assert (Hgone : stays pattern (Some handler) added = false).
  { unfold stays. rewrite Hurl, Hhandler, Hsame, Nat.eqb_refl. reflexivity. }
  assert (Hfilter : List.filter (stays pattern (Some handler)) (_routes s) = _routes s).
  { clear -Hold. induction Hold as [|r rest Hr _ IH]; simpl; [reflexivity|].
    rewrite Hr, IH. reflexivity. }
  assert (Hroute : snd (route pattern handler times replied s) =
                   set_trace (trace s ++ match _routes s with
                                          | [] => [Sent (SetNetworkInterceptionEnabled true)]
                                          | _ :: _ => []
                                          end)
                     (set_routes (added :: _routes s) s)).
  { unfold route, _wrapApiCall, bind, modify, get, when, channel_call, log, bind, ret.
    simpl. destruct (_routes s); simpl; [destruct replied|]; rewrite ?app_nil_r;
      reflexivity. }
  unfold s2. rewrite Hroute. split.
  - rewrite unroute_routes. simpl. fold added. rewrite Hgone. exact Hfilter.
  - intros Hempty. rewrite unroute_spec. simpl. fold added.
    rewrite Hgone, Hfilter, Hempty. simpl.
    destruct replied' as [[]|e]; simpl; rewrite <- app_assoc; reflexivity.
Qed.

End RouteProperties.

(** ** Bindings and closing *)

Section BindingAndCloseProperties.

Context {RH : Type} {env : ClientEnv}.
Import BrowserContext.

Local Abbreviation Ctx := (@State RH).

(** X7.  A binding call under a name that was exposed runs the callback that
    was exposed last, once, and the handler returns normally.  For
    [exposeFunction] the callback that runs hands the arguments of the call
    to the function and drops the source.  Exposing a name leaves the
    callbacks of all other names as they were. *)
Theorem exposed_binding_is_called_once
    (s : Ctx) (bindingCall : BindingCall)
    (callback : BindingSource -> list Value -> Value) (fn : list Value -> Value)
    (handle_option : option bool) :
  let name := call_name bindingCall in
  let bound := snd (exposeBinding name callback handle_option (Ok tt) s) in
  let wrapped := snd (exposeFunction name fn (Ok tt) s) in
  _onBinding bindingCall bound =
    (Ok tt, set_trace (trace bound ++ [Called bindingCall callback]) bound) /\
  (exists binding : BindingSource -> list Value -> Value,
      _onBinding bindingCall wrapped =
        (Ok tt, set_trace (trace wrapped ++ [Called bindingCall binding]) wrapped) /\
      forall (source : BindingSource) (args : list Value), binding source args = fn args) /\
  (forall other : string,
      other <> name ->
      _bindings bound !! other = _bindings s !! other /\
      _bindings wrapped !! other = _bindings s !! other).
Proof.
  intros name bound wrapped. subst bound wrapped.
  rewrite exposeBinding_replied, exposeFunction_replied. cbn [snd].
  split; [|split].
  - unfold _onBinding, bind, get, log, modify. simpl. fold name.
    rewrite lookup_insert_eq. reflexivity.
  - exists (fun _ args => fn args). split; [|reflexivity].
    unfold _onBinding, bind, get, log, modify. simpl. fold name.
    rewrite lookup_insert_eq. reflexivity.
  - intros other Hother. simpl. rewrite !lookup_insert_ne by congruence.
    split; reflexivity.
Qed.

Lemma _onClose_frame (s : Ctx) :
  _browser (snd (_onClose s)) = _browser s /\
  _browserType (snd (_onClose s)) = _browserType s /\
  _routes (snd (_onClose s)) = _routes s /\
  _bindings (snd (_onClose s)) = _bindings s.
Proof.
  destruct s as [g routes browser browserType bindings settings promise baseURL closed
                   browsers browserTypes ws tr rejections].
  unfold _onClose, emit, emit_at, bind, modify, get, log. simpl.
  rewrite !String.eqb_refl. simpl.
  destruct browser, browserType, promise; simpl; repeat split.
Qed.

Lemma step_twice (o : Waiter.Occurrence) (w : Waiter.t) :
  Waiter.step o (Waiter.step o w) = Waiter.step o w.
Proof.
  destruct (step_same_or_settled o w) as [Hsame|Hsettled].
  - rewrite !Hsame. reflexivity.
  - apply step_settled, Hsettled.
Qed.

Lemma alter_remove_twice (m : gmap string (gset string)) (owner g : string) :
  alter (fun c => c ∖ {[g]}) owner (alter (fun c => c ∖ {[g]}) owner m) =
  alter (fun c => c ∖ {[g]}) owner m.
Proof.
  apply map_eq. intros k. rewrite !lookup_alter.
  destruct (decide (owner = k)) as [->|Hne]; [|reflexivity].
  destruct (decide (k = k)); [|congruence].
  destruct (m !! k) as [c|]; simpl; [|reflexivity].
  f_equal. set_solver.
Qed.

(** X8.  A second close event finds nothing left to do but to emit again:
    [_closed] stays set, the [_contexts] sets and the waits in flight are as
    the first event left them, and [_closedPromise] keeps the value it was
    first resolved with. *)
Theorem second_close_event_only_emits_again (s : Ctx) :
  let s1 := snd (_onClose s) in
  let s2 := snd (_onClose s1) in
  fst (_onClose s1) = Ok tt /\
  _closed s2 = true /\
  Browser__contexts s2 = Browser__contexts s1 /\
  BrowserType__contexts s2 = BrowserType__contexts s1 /\
  waiters s2 = waiters s1 /\
  _closedPromise s2 = _closedPromise s1 /\
  trace s2 = trace s1 ++ [Emitted (ContextScope (this s)) (BrowserContext_Close Events)
                            (PContext (this s))].
Proof.
  intros s1 s2. subst s2.
  destruct (_onClose_frame s) as (Hb1 & Hbt1 & _). fold s1 in Hb1, Hbt1.
  destruct (_onClose_spec s) as (t1 & Hrun1 & _ & Hreg1 & Hregt1 & _ & Hw1 & Hp1 & Hthis1).
  assert (Hs1 : s1 = t1) by (unfold s1; rewrite Hrun1; reflexivity).
  rewrite Hs1 in *. clear Hs1 s1.
  destruct (_onClose_spec t1) as (t2 & -> & Hc2 & Hreg2 & Hregt2 & Ht2 & Hw2 & Hp2 & _).
  cbn [fst snd].
  rewrite Hthis1 in *. rewrite Hb1 in Hreg2. rewrite Hbt1 in Hregt2.
  split; [reflexivity|]. split; [exact Hc2|].
  split; [|split; [|split; [|split; [|exact Ht2]]]].
  - rewrite Hreg2, Hreg1. destruct (_browser s); [apply alter_remove_twice | reflexivity].
  - rewrite Hregt2, Hregt1.
    destruct (_browserType s); [apply alter_remove_twice | reflexivity].
  - rewrite Hw2, Hw1, map_map. apply map_ext. intros w. apply step_twice.
  - rewrite Hp2, Hp1. reflexivity.
Qed.


End BindingAndCloseProperties.

(** ** The stream reader in use *)

Section StreamLifeProperties.

Context {buffers : BufferAPI}.
Import StreamImpl StreamLife.

(** X10.  Pulls that the driver answers, on a reader that is neither ended
    nor destroyed: the consumer gets the decoded chunks of the answers up to
    the first answer without data, in order; the driver is asked once for
    each of these answers and once for the one without data, and for nothing
    after it; the sequence has ended exactly if an answer without data was
    among them. *)
Theorem pulls_yield_the_chunks_before_the_first_empty_answer
    (requests : list (Z * StreamReadResult)) (s : State) :
  ended s = false ->
  destroyed s = false ->
  let answered := map (fun r : Z * StreamReadResult => (fst r, Ok (snd r))) requests in
  fst (pulls answered s) = Ok tt /\
  consumed (snd (pulls answered s)) =
    consumed s ++ map Buffer_from_base64 (chunks_before_end (map snd requests)) /\
  sent (snd (pulls answered s)) = sent s ++ map Read (asked_before_end requests) /\
  ended (snd (pulls answered s)) =
    existsb (fun r => match truthy (binary (snd r)) with Some _ => false | None => true end)
      requests.
Proof.
  revert s. induction requests as [|[size answer] rest IH]; intros s Hended Hdestroyed.
  - simpl. rewrite !app_nil_r. repeat split. exact Hended.
  - cbn [map fst snd pulls]. unfold pull. rewrite Hended, Hdestroyed. cbn [orb].
    unfold _read. cbn [chunks_before_end asked_before_end existsb snd].
    destruct (truthy (binary answer)) as [text|] eqn:Htext.
    + specialize (IH (push (Some (Buffer_from_base64 text)) (send (Read size) s))
                     Hended Hdestroyed).
      cbv zeta in IH. destruct IH as (Hok & Hchunks & Hsent & Hend).
      rewrite Hok, Hchunks, Hsent, Hend. simpl. rewrite <- !app_assoc.
      repeat split.
    + rewrite pulls_after_end by reflexivity. simpl. rewrite app_nil_r.
      repeat split.
Qed.

Lemma use_keeps_order (u : StreamUse) (s : State) (sizes : list Z) :
  sent s = map Read sizes ++ (if destroyed s then [Close] else []) ->
  length (consumed s) + length (unhandledRejections s) <= length sizes ->
  exists sizes',
    sent (use u s) = map Read sizes' ++ (if destroyed (use u s) then [Close] else []) /\
    length (consumed (use u s)) + length (unhandledRejections (use u s)) <= length sizes'.
Proof.
  intros Hsent Hcount. destruct u as [size replied|error closed]; simpl.
  - unfold pull. destruct (ended s || destroyed s) eqn:Hlive.
    + exists sizes. simpl. rewrite app_nil_r. destruct s; simpl in *. split; assumption.
    + apply orb_false_iff in Hlive. destruct Hlive as [_ Hdestroyed].
      rewrite Hdestroyed in Hsent. rewrite app_nil_r in Hsent.
      exists (sizes ++ [size]). unfold _read.
      destruct replied as [answer|e]; [destruct (truthy (binary answer))|]; simpl;
        rewrite Hdestroyed, Hsent, map_app, !app_nil_r, ?length_app; simpl;
        (split; [reflexivity | lia]).
  - unfold destroy. destruct (destroyed s) eqn:Hdestroyed.
    + exists sizes. simpl. rewrite Hdestroyed. split; assumption.
    + rewrite app_nil_r in Hsent. exists sizes. unfold _destroy, super__destroy. simpl.
      rewrite Hsent. destruct closed; simpl; rewrite app_nil_r; split; (reflexivity || lia).
Qed.

(** X11.  However a reader is pulled and destroyed, what it has put on the
    channel is a run of [read] requests, followed by a single [close] exactly
    if it was destroyed: no request is made after the close and the close is
    never repeated.  Every chunk handed to the consumer and every unhandled
    rejection belongs to a request of its own; in particular a failing close
    leaves no rejection behind. *)
Theorem reader_sends_reads_then_one_close (us : list StreamUse) :
  exists sizes : list Z,
    sent (uses us initial) =
      map Read sizes ++ (if destroyed (uses us initial) then [Close] else []) /\
    length (consumed (uses us initial)) + length (unhandledRejections (uses us initial))
      <= length sizes.
Proof.
  assert (Hgen : forall (s : State) (sizes : list Z),
             sent s = map Read sizes ++ (if destroyed s then [Close] else []) ->
             length (consumed s) + length (unhandledRejections s) <= length sizes ->
             exists sizes',
               sent (uses us s) =
                 map Read sizes' ++ (if destroyed (uses us s) then [Close] else []) /\
               length (consumed (uses us s)) + length (unhandledRejections (uses us s))
                 <= length sizes').
  { induction us as [|u us IH]; intros s sizes Hsent Hcount.
    - exists sizes. split; assumption.
    - destruct (use_keeps_order u s sizes Hsent Hcount) as (sizes' & Hsent' & Hcount').
      exact (IH (use u s) sizes' Hsent' Hcount'). }
  apply (Hgen initial []); simpl; [reflexivity | lia].
Qed.

End StreamLifeProperties.

(** ** Pages, sessions and closing *)

Section ApiProperties.

Context {RH : Type} {env : ClientEnv} {api : ApiEnv}.
Import BrowserContext BrowserContextApi.

Local Abbreviation World := (@Whole RH).


(** X13.  [cookies] sends one request whose urls are always an array: a
    single url counts as the array of that url, and no argument, the empty
    string and the empty array all ask alike, with no urls.  The cookies
    returned are those of the reply, and a failure is the reply's error
    through [_wrapApiCall]. *)
Theorem cookies_urls_are_sent_as_an_array
    (w : World) (url : string) (urls : list string) (replied : Result (list NetworkCookie)) :
  let asks (us : list string) :=
    (match replied with Ok cs => Ok cs | Throw e => Throw (apiError e) end,
     set_effects (effects w ++ [Channel (Cookies us)]) w) in
  cookies NoUrls replied w = asks [] /\
  cookies (OneUrl "") replied w = asks [] /\
  cookies (ManyUrls urls) replied w = asks urls /\
  (url <> "" -> cookies (OneUrl url) replied w = asks [url]).
Proof.
  intros asks. unfold asks, cookies, _wrapApiCallX, call.
  repeat split; try (destruct replied; reflexivity).
  intros Hurl. destruct url as [|c rest]; [congruence|].
  destruct replied; reflexivity.
Qed.

Lemma close_body_steps (replies : CloseReplies) (w : World) :
  effects (snd (close_body replies w)) =
    effects w ++ until_failure (close_steps replies w) /\
  snd (close_body replies w) = set_effects (effects (snd (close_body replies w))) w /\
  (forallb snd (close_steps replies w) = true ->
   fst (close_body replies w) =
     Ok (match _closedPromise (core w) with
         | Some _ => Completed
         | None => AwaitingCloseEvent
         end)) /\
  (forallb snd (close_steps replies w) = false ->
   exists e, fst (close_body replies w) = Throw e).
Proof.
  destruct replies as [hook exported saved removed shut].
  destruct w as [c ps bps owner har openers closeds remotes effs].
  unfold close_body, close_steps, bindx, getx, call, retx, browser_is_remote. simpl.
  destruct (_closedPromise c) as [resolved|] eqn:Hpromise;
    (destruct (_browserType c) as [browserType|] eqn:Htype; [destruct hook as [[[]|e0]|]|]);
    (destruct har as [path|];
     [destruct exported as [artifact|e1];
      [destruct saved as [[]|e2]; [destruct removed as [[]|e3]|]|]|]);
    destruct shut as [[]|e4]; simpl; rewrite ?Hpromise, ?Htype; simpl;
    rewrite <- ?app_assoc; simpl.
  all: split; [reflexivity|]; split; [reflexivity|].
  all: first
    [ split; [intros _; reflexivity | discriminate]
    | split; [discriminate | intros _; eexists; reflexivity] ].
Qed.

(** X14.  [close()] makes its steps in a fixed order and stops at the first
    that fails: the hook of the browser type if there is one; with
    [recordHar], the HAR export, then saving the artifact to the path of the
    option, then deleting it; and last the [close] message.  So the driver
    is told to close only if everything before went well, and the artifact
    is deleted only if it was saved.  The fields of the context are left as
    they were. *)
Theorem close_stops_at_the_first_failing_step (replies : CloseReplies) (w : World) :
  let steps := close_steps replies w in
  effects (snd (close replies w)) = effects w ++ until_failure steps /\
  core (snd (close replies w)) = core w /\
  pages (snd (close replies w)) = pages w /\
  (In (Channel CloseContext) (until_failure steps) <->
   forallb snd (removelast steps) = true).
Proof.
  intros steps.
  destruct (close_body_steps replies w) as (Heffects & Hstate & _).
  assert (Hclose : snd (close replies w) = snd (close_body replies w)).
  { unfold close, try_catch, _wrapApiCallX, retx, throw.
    destruct (close_body replies w) as [[done|e] w']; simpl; [reflexivity|].
    destruct (isSafeCloseError (apiError e)); reflexivity. }
  rewrite Hclose, Heffects. split; [reflexivity|].
  rewrite Hstate. split; [reflexivity|]. split; [reflexivity|].
  subst steps. unfold close_steps.
  destruct (_browserType (core w)) as [browserType|];
    [destruct (willClose replies) as [[[]|e0]|]|];
    (destruct (_options_recordHar w) as [path|];
     [destruct (harExported replies) as [artifact|e1];
      [destruct (savedAs replies) as [[]|e2]; [destruct (deleted replies) as [[]|e3]|]|]|]);
    simpl.
  all: split; [intros Hin | intros Hall].
  all: try reflexivity; try discriminate.
  all: repeat (destruct Hin as [Hin|Hin]; try discriminate Hin); try contradiction.
  all: auto 10.
Qed.

(** X15.  When every step goes well, [close()] returns once the close event
    has resolved [_closedPromise], and is suspended until then; after the
    close handler has run it returns.  When a step fails, the error goes
    through [_wrapApiCall], and [close()] returns normally if
    [isSafeCloseError] accepts it and throws it otherwise: [close()] never
    throws an error that [isSafeCloseError] accepts. *)
Theorem close_returns_after_the_close_event (replies : CloseReplies) (w : World) :
  (forallb snd (close_steps replies w) = true ->
   fst (close replies w) =
     Ok (match _closedPromise (core w) with
         | Some _ => Completed
         | None => AwaitingCloseEvent
         end) /\
   fst (close replies (snd (lift _onClose w))) = Ok Completed) /\
  (forall e : Error, fst (close replies w) = Throw e -> isSafeCloseError e = false) /\
  (forallb snd (close_steps replies w) = false ->
   exists e : Error,
     fst (close_body replies w) = Throw e /\
     fst (close replies w) =
       if isSafeCloseError (apiError e) then Ok Completed else Throw (apiError e)).
Proof.
  assert (Hclose : forall v : World,
             fst (close replies v) =
             match fst (close_body replies v) with
             | Ok done => Ok done
             | Throw e =>
                 if isSafeCloseError (apiError e) then Ok Completed else Throw (apiError e)
             end).
  { intros v. unfold close, try_catch, _wrapApiCallX, retx, throw.
    destruct (close_body replies v) as [[done|e] v']; simpl; [reflexivity|].
    destruct (isSafeCloseError (apiError e)); reflexivity. }
  split; [|split].
  - intros Hall.
    destruct (close_body_steps replies w) as (_ & _ & Hok & _).
    split; [rewrite Hclose, (Hok Hall); reflexivity|].
    destruct (_onClose_spec (core w)) as (c' & Hrun & _ & _ & Htypes & _ & _ & Hp & _).
    assert (Hlift : snd (lift _onClose w) = set_core c' w)
      by (unfold lift; rewrite Hrun; reflexivity).
    rewrite Hlift.
    destruct (close_body_steps replies (set_core c' w)) as (_ & _ & Hok' & _).
    rewrite Hclose, Hok'; simpl.
    + rewrite Hp. reflexivity.
    + revert Hall. unfold close_steps, browser_is_remote. simpl.
      destruct (_onClose_frame (core w)) as (Hb & Hbt & _).
      rewrite Hrun in Hb, Hbt. simpl in Hb, Hbt. rewrite Hb, Hbt. exact (fun H => H).
  - intros e. rewrite Hclose.
    destruct (fst (close_body replies w)) as [done|e0]; [discriminate|].
    destruct (isSafeCloseError (apiError e0)) eqn:Hsafe; [discriminate|].
    intros [= <-]. exact Hsafe.
  - intros Hsome.
    destruct (close_body_steps replies w) as (_ & _ & _ & Hfail).
    destruct (Hfail Hsome) as (e & He). exists e. split; [exact He|].
    rewrite Hclose, He. reflexivity.
Qed.

(** *** Pages *)

Lemma Set_add_spec (x : guid) (set : list guid) :
  (In x set -> Set_add x set = set) /\
  (~ In x set -> Set_add x set = set ++ [x]).
Proof.
  unfold Set_add. destruct (existsb (String.eqb x) set) eqn:Hex.
  - split; [reflexivity|]. intros Hnot. exfalso. apply Hnot.
    apply existsb_exists in Hex. destruct Hex as (y & Hin & Heq).
    apply String.eqb_eq in Heq. subst y. exact Hin.
  - split; [|reflexivity]. intros Hin.
    assert (Htrue : existsb (String.eqb x) set = true)
      by (apply existsb_exists; exists x; split; [exact Hin | apply String.eqb_refl]).
    congruence.
Qed.

Lemma _onPage_spec (page : guid) (w : World) :
  exists w' : World,
    _onPage page w = (Ok tt, w') /\
    _pages w' = Set_add page (_pages w) /\
    trace (core w') =
      trace (core w) ++
      Emitted (ContextScope (this (core w))) BrowserContext_Page (PPage page)
      :: match Page__opener w !! page with
         | Some opener =>
             if bool_decide (opener ∈ Page__closed w) then []
             else [Emitted (PageScope opener) Page_Popup (PPage page)]
         | None => []
         end /\
    Page__opener w' = Page__opener w /\
    Page__closed w' = Page__closed w /\
    _backgroundPages w' = _backgroundPages w /\
    effects w' = effects w.
Proof.
  unfold _onPage, bindx, modifyx, getx, lift, retx, emit, page_emit, bind, get.
  cbn [core set_pages].
  destruct (emit_at_spec (ContextScope (this (core w))) BrowserContext_Page (PPage page)
              (core w)) as (c1 & Hrun1 & Ht1 & _).
  rewrite Hrun1. cbn [Page__opener set_core set_pages].
  destruct (Page__opener w !! page) as [opener|]; cbn [Page__closed set_core set_pages].
  - destruct (bool_decide (opener ∈ Page__closed w)); cbn [negb].
    + eexists. split; [reflexivity|]. simpl. rewrite Ht1. repeat split.
    + cbn [core set_core].
      destruct (emit_at_spec (PageScope opener) Page_Popup (PPage page) c1)
        as (c2 & Hrun2 & Ht2 & _).
      rewrite Hrun2. eexists. split; [reflexivity|]. simpl.
      rewrite Ht2, Ht1, <- app_assoc. repeat split.
  - eexists. split; [reflexivity|]. simpl. rewrite Ht1. repeat split.
Qed.

(** X16.  A page event is emitted on the context, and after it a popup
    event is emitted on the opener of the page exactly if the page has an
    opener and that opener is not closed; nothing else is emitted, and the
    handler returns normally. *)
Theorem page_event_reaches_context_and_open_opener (w : World) (page : guid) :
  let announced := Emitted (ContextScope (this (core w))) BrowserContext_Page (PPage page) in
  let after := snd (_onPage page w) in
  fst (_onPage page w) = Ok tt /\
  (forall opener : guid,
      Page__opener w !! page = Some opener ->
      opener ∉ Page__closed w ->
      trace (core after) =
        trace (core w) ++ [announced; Emitted (PageScope opener) Page_Popup (PPage page)]) /\
  (forall opener : guid,
      Page__opener w !! page = Some opener ->
      opener ∈ Page__closed w ->
      trace (core after) = trace (core w) ++ [announced]) /\
  (Page__opener w !! page = None ->
   trace (core after) = trace (core w) ++ [announced]).
Proof.
  intros announced after. subst after.
  destruct (_onPage_spec page w) as (w' & -> & _ & Ht & _). cbn [fst snd].
  split; [reflexivity|]. rewrite Ht. split; [|split].
  - intros opener -> Hopen. rewrite bool_decide_eq_false_2 by exact Hopen. reflexivity.
  - intros opener -> Hclosed. rewrite bool_decide_eq_true_2 by exact Hclosed. reflexivity.
  - intros ->. reflexivity.
Qed.

Lemma on_pages_spec (announced : list guid) (w : World) :
  NoDup (_pages w) ->
  fst (on_pages announced w) = Ok tt /\
  NoDup (_pages (snd (on_pages announced w))) /\
  (exists later, _pages (snd (on_pages announced w)) = _pages w ++ later) /\
  (forall p, In p (_pages (snd (on_pages announced w))) <-> In p (_pages w) \/ In p announced).
Proof.
  revert w. induction announced as [|page rest IH]; intros w Hnodup.
  - simpl. split; [reflexivity|]. split; [exact Hnodup|].
    split; [exists []; rewrite app_nil_r; reflexivity|]. intros p. tauto.
  - cbn [on_pages]. unfold bindx.
    destruct (_onPage_spec page w) as (w1 & -> & Hpages & _).
    assert (Hstep : NoDup (_pages w1) /\
                    (exists later, _pages w1 = _pages w ++ later) /\
                    (forall p, In p (_pages w1) <-> In p (_pages w) \/ p = page)).
    { rewrite Hpages. destruct (Set_add_spec page (_pages w)) as [Hin Hout].
      destruct (in_dec string_dec page (_pages w)) as [Hmem|Hnew].
      - rewrite (Hin Hmem). split; [exact Hnodup|].
        split; [exists []; rewrite app_nil_r; reflexivity|].
        intros p. split; [tauto|]. intros [Hp| ->]; assumption.
      - rewrite (Hout Hnew). split.
        + apply NoDup_app. split; [exact Hnodup|]. split.
          * intros x Hx Hx'. apply list_elem_of_In in Hx.
            apply list_elem_of_In in Hx'. destruct Hx' as [<-|[]]. contradiction.
          * apply NoDup_singleton.
        + split; [exists [page]; reflexivity|].
          intros p. rewrite in_app_iff. simpl. intuition congruence. }
    destruct Hstep as (Hnodup1 & (later1 & Hlater1) & Hmem1).
    destruct (IH w1 Hnodup1) as (Hok & Hnodup2 & (later2 & Hlater2) & Hmem2).
    split; [exact Hok|]. split; [exact Hnodup2|]. split.
    + exists (later1 ++ later2). rewrite Hlater2, Hlater1, app_assoc. reflexivity.
    + intros p. rewrite Hmem2, Hmem1. simpl. intuition congruence.
Qed.

(** X17.  [pages()] lists every page once, in the order the pages were first
    announced: after any run of page events on a context whose page list has
    no duplicates, the list still has none, it is the old list with pages
    added at its end, and it holds the old pages and the announced ones and
    no others.  Announcing a page again changes nothing in it. *)
Theorem pages_lists_each_page_once_in_arrival_order (announced : list guid) (w : World) :
  let after := snd (on_pages announced w) in
  NoDup (pages w) ->
  fst (on_pages announced w) = Ok tt /\
  NoDup (pages after) /\
  (exists later, pages after = pages w ++ later) /\
  (forall p : guid, In p (pages after) <-> In p (pages w) \/ In p announced) /\
  (forall p : guid, In p (pages after) -> pages (snd (_onPage p after)) = pages after).
Proof.
  intros after Hnodup. unfold pages.
  destruct (on_pages_spec announced w Hnodup) as (Hok & Hnodup' & Hlater & Hmem).
  split; [exact Hok|]. split; [exact Hnodup'|]. split; [exact Hlater|].
  split; [exact Hmem|].
  intros p Hp. destruct (_onPage_spec p after) as (w' & -> & Hpages & _).
  cbn [snd]. rewrite Hpages. apply Set_add_spec, Hp.
Qed.

End ApiProperties.

(** ** Context parameters *)

Section ContextParamsProperties.

Context {headers : HeadersAPI}.
Import ContextParams.

(** X18.  The options are checked before any file is read.  A [videoSize]
    without a [videosPath], or with an empty one, is refused with the error
    that names both options, whatever else the options say; otherwise,
    headers that [validateHeaders] rejects are refused with its error; in
    both cases no file is read.  A file is read only when [storageState] is
    the path of that file, and then reading it decides the result. *)
Theorem context_options_are_checked_before_reading
    (options : BrowserContextOptions) (read : Result StorageState) :
  let outcome := prepareBrowserContextParams options read in
  (forall size : Size,
      videoSize options = Some size ->
      truthy_path (videosPath options) = false ->
      outcome = (Throw videoSize_requires_videosPath, [])) /\
  (forall (h : list (string * string)) (e : Error),
      extraHTTPHeaders options = Some h ->
      validateHeaders h = Throw e ->
      videoSize options = None \/ truthy_path (videosPath options) = true ->
      outcome = (Throw e, [])) /\
  (forall path : string,
      In path (snd outcome) ->
      storageState options = Some (StorageStateFile path) /\
      snd outcome = [path] /\
      fst outcome = match read with
                    | Ok state => Ok (contextParams options (Some state))
                    | Throw e => Throw e
                    end).
Proof.
  intros outcome. subst outcome. unfold prepareBrowserContextParams.
  destruct options as [view path size video hs state]. cbn [videoSize videosPath
    extraHTTPHeaders storageState].
  split; [|split].
  - intros size0 -> ->. reflexivity.
  - intros h e -> Hvalid Hvideo. rewrite Hvalid.
    destruct Hvideo as [-> | ->]; [reflexivity|]. destruct size; reflexivity.
  - intros file.
    destruct size as [size|], (truthy_path path);
      (destruct hs as [h|]; [destruct (validateHeaders h) as [[]|e0]|]);
      (destruct state as [[file'|value]|]; [destruct read as [st|e1]| |]);
      cbn [fst snd In]; intros Hin; try contradiction.
    all: destruct Hin as [<-|[]]; repeat split.
Qed.

(** X19.  When the function returns parameters: [noDefaultViewport] is set
    exactly if the [viewport] option was [null], and then no viewport is
    passed; a [recordVideo] option is passed as it is, and without one a
    non-empty [videosPath] becomes the directory of [recordVideo], with
    [videoSize] as its size; a [videoSize] always comes with a non-empty
    [videosPath]; headers are passed as [headersObjectToArray] makes them;
    and a storage state given as a file is the state that was read. *)
Theorem context_params_follow_the_options
    (options : BrowserContextOptions) (read : Result StorageState)
    (params : BrowserNewContextParams) :
  fst (prepareBrowserContextParams options read) = Ok params ->
  (noDefaultViewport params = true <-> viewport options = ViewportNull) /\
  (viewport options = ViewportNull -> params_viewport params = None) /\
  (forall video : RecordVideo,
      recordVideo options = Some video -> params_recordVideo params = Some video) /\
  (recordVideo options = None ->
   params_recordVideo params =
     if truthy_path (videosPath options)
     then (fun path => mkRecordVideo path (videoSize options)) <$> videosPath options
     else None) /\
  (forall size : Size,
      videoSize options = Some size -> truthy_path (videosPath options) = true) /\
  params_extraHTTPHeaders params = headersObjectToArray <$> extraHTTPHeaders options /\
  (forall path : string,
      storageState options = Some (StorageStateFile path) ->
      exists state, read = Ok state /\ params_storageState params = Some state).
Proof.
  unfold prepareBrowserContextParams.
  destruct options as [view path size video hs state].
  cbn [videoSize videosPath extraHTTPHeaders storageState viewport recordVideo].
  intros Hparams.
  assert (Hvideo : forall size0, size = Some size0 -> truthy_path path = true).
  { intros size0 ->. destruct (truthy_path path); [reflexivity | discriminate]. }
  assert (Hbuilt : exists st,
             params = contextParams
                        (mkBrowserContextOptions view path size video hs state) st /\
             forall file, state = Some (StorageStateFile file) ->
                          exists read_state, read = Ok read_state /\ st = Some read_state).
  { destruct size as [size|], (truthy_path path); try discriminate.
    all: destruct hs as [h|]; [destruct (validateHeaders h) as [[]|e0]|];
      try discriminate.
    all: destruct state as [[file'|value]|]; [destruct read as [st|e1]| |];
      try discriminate.
    all: injection Hparams as <-; eexists; split; [reflexivity|].
    all: intros file Hfile; try discriminate.
    all: eexists; split; reflexivity. }
  destruct Hbuilt as (st & -> & Hstate). clear Hparams.
  unfold contextParams.
  cbn [videoSize videosPath extraHTTPHeaders storageState viewport recordVideo
       params_recordVideo].
  split; [|split; [|split; [|split; [|split; [exact Hvideo|split]]]]].
  - destruct view, video, path as [[|c rest]|]; simpl; split; congruence.
  - intros ->. destruct video, path as [[|c rest]|]; reflexivity.
  - intros v ->. destruct path as [[|c rest]|]; reflexivity.
  - intros ->. destruct path as [[|c rest]|]; reflexivity.
  - destruct video, path as [[|c rest]|], hs; reflexivity.
  - intros file Hfile. destruct (Hstate file Hfile) as (read_state & Hread & ->).
    exists read_state. split; [exact Hread|].
    destruct video, path as [[|c rest]|]; reflexivity.
Qed.

End ContextParamsProperties.

(** ** The further properties on the sample collaborators *)

Lemma newest_matching_route_handles_the_event_witness :
  sample_matches (mkSampleRouteHandler None (GlobMatch "*") 7 None 0)
    "https://example.com/" = true /\
  BrowserContext._routes
    (snd (@BrowserContext._onRoute _ sample_RouteHandlerAPI sample_route sample_request
            (Ok tt)
            (snd (@BrowserContext.route _ sample_RouteHandlerAPI sample_ClientEnv
                    (GlobMatch "*") 7 None (Ok tt) sample_two_routes)))) =
    mkSampleRouteHandler None (GlobMatch "*") 7 None 1
      :: BrowserContext._routes sample_two_routes.
Proof.
  split; [reflexivity|].
  exact (proj2 (@newest_matching_route_handles_the_event _ sample_RouteHandlerAPI
                  sample_ClientEnv sample_two_routes (GlobMatch "*") 7 None (Ok tt) (Ok tt)
                  sample_route sample_request eq_refl)).
Defined.

Lemma route_then_unroute_restores_the_handlers_witness :
  sample_strictly_equal (GlobMatch "/api") (GlobMatch "/api") = true /\
  BrowserContext._routes
    (snd (@BrowserContextRoutes.unroute _ sample_RouteHandlerFields sample_ClientEnv
            (GlobMatch "/api") (Some 7%nat) (Ok tt)
            (snd (@BrowserContext.route _ sample_RouteHandlerAPI sample_ClientEnv
                    (GlobMatch "/api") 7 None (Ok tt) sample_two_routes)))) =
    BrowserContext._routes sample_two_routes.
Proof.
  split; [reflexivity|].
  refine (proj1 (@route_then_unroute_restores_the_handlers _ sample_RouteHandlerAPI
                   sample_RouteHandlerFields sample_ClientEnv sample_two_routes
                   (GlobMatch "/api") 7 None (Ok tt) (Ok tt) eq_refl eq_refl eq_refl _)).
  repeat constructor.
Defined.


Lemma exposed_binding_is_called_once_witness :
  "bar" <> "foo" /\
  BrowserContext._bindings
    (snd (@BrowserContext.exposeBinding SampleRouteHandler sample_ClientEnv "foo"
            (fun _ _ => VNum 3) None (Ok tt) sample_context)) !! "bar" =
    BrowserContext._bindings sample_context !! "bar".
Proof.
  assert (Hne : "bar" <> "foo") by discriminate.
  split; [exact Hne|].
  exact (proj1 (proj2 (proj2
           (@exposed_binding_is_called_once SampleRouteHandler sample_ClientEnv sample_context
              (mkBindingCall "bindingCall@1" "foo" []) (fun _ _ => VNum 3)
              (fun _ => VNum 4) None)) "bar" Hne)).
Defined.

Lemma pulls_yield_the_chunks_before_the_first_empty_answer_witness :
  @StreamImpl.ended StreamImpl.initial = false /\
  @StreamImpl.destroyed StreamImpl.initial = false /\
  StreamImpl.sent
    (snd (@StreamImpl.pulls sample_BufferAPI
            (map (fun r : Z * StreamReadResult => (fst r, Ok (snd r)))
               [(3%Z, mkStreamReadResult (Some "YWJj"));
                (4%Z, mkStreamReadResult None);
                (5%Z, mkStreamReadResult (Some "ZGVm"))])
            StreamImpl.initial)) =
    [] ++ map Read
            (StreamLife.asked_before_end
               [(3%Z, mkStreamReadResult (Some "YWJj"));
                (4%Z, mkStreamReadResult None);
                (5%Z, mkStreamReadResult (Some "ZGVm"))]).
Proof.
  split; [reflexivity|]. split; [reflexivity|].
  exact (proj1 (proj2 (proj2
           (@pulls_yield_the_chunks_before_the_first_empty_answer sample_BufferAPI
              [(3%Z, mkStreamReadResult (Some "YWJj"));
               (4%Z, mkStreamReadResult None);
               (5%Z, mkStreamReadResult (Some "ZGVm"))]
              StreamImpl.initial eq_refl eq_refl)))).
Defined.


Lemma cookies_urls_are_sent_as_an_array_witness :
  "https://example.com" <> "" /\
  @BrowserContextApi.cookies SampleRouteHandler sample_ClientEnv
    (OneUrl "https://example.com") (Ok []) sample_world =
    (Ok [], BrowserContextApi.set_effects
              [Channel (Cookies ["https://example.com"])] sample_world).
Proof.
  assert (Hne : "https://example.com" <> "") by discriminate.
  split; [exact Hne|].
  exact (proj2 (proj2 (proj2
           (@cookies_urls_are_sent_as_an_array SampleRouteHandler sample_ClientEnv
              sample_world "https://example.com" [] (Ok [])))) Hne).
Defined.

Lemma close_returns_after_the_close_event_witness :
  forallb snd (@BrowserContextApi.close_steps SampleRouteHandler sample_replies sample_world)
    = true /\
  fst (@BrowserContextApi.close _ sample_ClientEnv sample_ApiEnv sample_replies sample_world)
    = Ok AwaitingCloseEvent /\
  fst (@BrowserContextApi.close _ sample_ClientEnv sample_ApiEnv sample_replies
         (snd (BrowserContextApi.lift (@BrowserContext._onClose _ sample_ClientEnv)
                 sample_world)))
    = Ok Completed.
Proof.
  split; [reflexivity|].
  exact (proj1 (@close_returns_after_the_close_event SampleRouteHandler sample_ClientEnv
                  sample_ApiEnv sample_replies sample_world) eq_refl).
Defined.

Lemma page_event_reaches_context_and_open_opener_witness :
  BrowserContextApi.Page__opener sample_world !! "popup@2" = Some "page@2" /\
  "page@2" ∈ BrowserContextApi.Page__closed sample_world /\
  BrowserContext.trace
    (BrowserContextApi.core
       (snd (@BrowserContextApi._onPage _ sample_ClientEnv sample_ApiEnv "popup@2"
               sample_world))) =
    BrowserContext.trace (BrowserContextApi.core sample_world) ++
    [BrowserContext.Emitted
       (ContextScope "context@1") "page" (PPage "popup@2")].
Proof.
  assert (Hclosed : "page@2" ∈ BrowserContextApi.Page__closed sample_world)
    by (apply elem_of_singleton; reflexivity).
  split; [reflexivity|]. split; [exact Hclosed|].
  exact (proj1 (proj2 (proj2
           (@page_event_reaches_context_and_open_opener SampleRouteHandler sample_ClientEnv
              sample_ApiEnv sample_world "popup@2"))) "page@2" eq_refl Hclosed).
Defined.

Lemma pages_lists_each_page_once_in_arrival_order_witness :
  NoDup (BrowserContextApi.pages sample_world) /\
  NoDup (BrowserContextApi.pages
           (snd (@BrowserContextApi.on_pages _ sample_ClientEnv sample_ApiEnv
                   ["page@1"; "popup@1"; "page@1"] sample_world))).
Proof.
  assert (Hnone : NoDup (BrowserContextApi.pages sample_world)) by constructor.
  split; [exact Hnone|].
  exact (proj1 (proj2
           (@pages_lists_each_page_once_in_arrival_order SampleRouteHandler sample_ClientEnv
              sample_ApiEnv ["page@1"; "popup@1"; "page@1"] sample_world Hnone))).
Defined.

Lemma context_options_are_checked_before_reading_witness :
  @ContextParams.prepareBrowserContextParams sample_HeadersAPI
    (mkBrowserContextOptions ViewportUndefined (Some "") (Some (mkSize 800 600)) None None
       (Some (StorageStateFile "state.json")))
    (Ok (mkStorageState [])) =
    (Throw ContextParams.videoSize_requires_videosPath, []).
Proof.
  exact (proj1 (@context_options_are_checked_before_reading sample_HeadersAPI
                  (mkBrowserContextOptions ViewportUndefined (Some "")
                     (Some (mkSize 800 600)) None None
                     (Some (StorageStateFile "state.json")))
                  (Ok (mkStorageState []))) (mkSize 800 600) eq_refl eq_refl).
Defined.

Lemma context_params_follow_the_options_witness :
  fst (@ContextParams.prepareBrowserContextParams sample_HeadersAPI sample_options
         (Ok (mkStorageState []))) =
    Ok (@ContextParams.contextParams sample_HeadersAPI sample_options
          (Some (mkStorageState []))) /\
  params_recordVideo
    (@ContextParams.contextParams sample_HeadersAPI sample_options
       (Some (mkStorageState []))) =
    Some (mkRecordVideo "videos" (Some (mkSize 800 600))).
Proof.
  split; [reflexivity|].
  exact (proj1 (proj2 (proj2 (proj2
           (@context_params_follow_the_options sample_HeadersAPI sample_options
              (Ok (mkStorageState [])) _ eq_refl)))) eq_refl).
Defined.

(** Closing the sample context with [recordHar]: the export, the save to
    [trace.har], the delete and the close, in this order; when saving fails,
    neither the delete nor the close is made. *)
Example close_with_har :
  BrowserContextApi.effects
    (snd (@BrowserContextApi.close _ sample_ClientEnv sample_ApiEnv sample_replies
            sample_world)) =
    [Channel HarExport; ArtifactSaveAs "artifact@1" false "trace.har";
     ArtifactDelete "artifact@1"; Channel CloseContext] /\
  BrowserContextApi.effects
    (snd (@BrowserContextApi.close _ sample_ClientEnv sample_ApiEnv
            (mkCloseReplies None (Ok "artifact@1") (Throw (new_Error "EACCES")) (Ok tt)
               (Ok tt))
            sample_world)) =
    [Channel HarExport; ArtifactSaveAs "artifact@1" false "trace.har"].
Proof. split; reflexivity. Qed.
